(** * Tree population of the Cylc UI: node factories, validator, orchestrator

    A shallow embedding of [src/components/cylc/tree/index.js].

    The module receives plain GraphQL data: JavaScript values that are
    primitives or references to objects and arrays living in a shared
    heap.  The factories read fields of those records, one of them writes
    a field, and the orchestrator hands the nodes it builds to the
    insertion methods of a [CylcTree], which is outside the module and is
    represented here by the sequence of calls it receives. *)

From Stdlib Require Import ZArith.
From stdpp Require Import gmap strings list pretty.

Local Open Scope string_scope.

(** ** The JavaScript runtime the module relies on

    Numbers are IEEE doubles; the module only ever tests a number for
    truthiness or prints it inside a template literal, so the number type
    and these two operations are taken from the runtime.  Converting an
    object to a string walks its prototype chain ([toString], [valueOf],
    [join]); the module writes none of these properties, so the conversion
    is a fixed function of the object's location for the whole run, and it
    is [None] when the conversion raises a [TypeError]. *)

Abbreviation loc := nat.

Class Runtime := {
  number : Type;
  number_truthy : number -> bool;
  number_to_string : number -> string;
  object_to_string : loc -> option string
}.

Section Language.
Context `{RT : Runtime}.

(** ** Values and the heap *)

Inductive val :=
| VUndefined
| VNull
| VBool (b : bool)
| VNum (n : number)
| VStr (s : string)
| VRef (l : loc).

(** An object has named properties; an array is an object that also has
    an element list ([Array.isArray] tells them apart). *)
Record cell := Cell {
  props : gmap string val;
  items : option (list val)
}.

Definition empty_object : cell := Cell ∅ None.

(** Locations that the map does not list hold the empty object. *)
Definition cell_at (h : gmap loc cell) (l : loc) : cell :=
  default empty_object (h !! l).

(** Own data property [k] of the object at [l]; [undefined] when absent.
    The keys this module reads ([id], [cyclePoint], [state], [jobs],
    [latestMessage], [cyclePoints], [familyProxies], [taskProxies]) are
    not defined on the built-in prototypes. *)
Definition read (h : gmap loc cell) (l : loc) (k : string) : val :=
  default VUndefined (props (cell_at h l) !! k).

Definition write (h : gmap loc cell) (l : loc) (k : string) (x : val)
  : gmap loc cell :=
  <[l := Cell (<[k := x]> (props (cell_at h l))) (items (cell_at h l))]> h.

Definition is_undefined (v : val) : bool :=
  match v with VUndefined => true | _ => false end.

Definition is_null (v : val) : bool :=
  match v with VNull => true | _ => false end.

Definition is_nullish (v : val) : bool :=
  match v with VUndefined | VNull => true | _ => false end.

Definition is_ref (v : val) : bool :=
  match v with VRef _ => true | _ => false end.

(** ToBoolean *)
Definition truthy (v : val) : bool :=
  match v with
  | VUndefined | VNull => false
  | VBool b => b
  | VNum n => number_truthy n
  | VStr s => negb (String.eqb s "")
  | VRef _ => true
  end.

(** ToString, as applied by a template literal. *)
Definition ToString (v : val) : option string :=
  match v with
  | VUndefined => Some "undefined"
  | VNull => Some "null"
  | VBool true => Some "true"
  | VBool false => Some "false"
  | VNum n => Some (number_to_string n)
  | VStr s => Some s
  | VRef l => object_to_string l
  end.

(** The characters of a string, as a [for...of] loop yields them. *)
Fixpoint characters (s : string) : list val :=
  match s with
  | EmptyString => []
  | String c r => VStr (String c EmptyString) :: characters r
  end.

(** What a [for...of] loop iterates over: the elements of an array, the
    characters of a string; nothing else in this data is iterable. *)
Definition iterate (h : gmap loc cell) (v : val) : option (list val) :=
  match v with
  | VRef l => items (cell_at h l)
  | VStr s => Some (characters s)
  | _ => None
  end.

Definition isArray (h : gmap loc cell) (v : val) : bool :=
  match v with
  | VRef l => bool_decide (is_Some (items (cell_at h l)))
  | _ => false
  end.

(** ** Tree nodes

    Node descriptors are object literals built by the factories and handed
    straight to the tree. *)

(** The [node] field: either the very value the caller supplied (for an
    object, the same reference), or an object literal of the factory's
    own. *)
Inductive payload :=
| Shared (v : val)
| Literal (fields : list (string * val)).

Record view_state := ViewState { open : bool }.

End Language.

Set Warnings "-register-all".

Module Node.
Section Node.
Context `{RT : Runtime}.

Inductive t := Make {
  id : val;
  type : string;
  node : payload;
  latestMessage : option val;
  children : list t;
  size : option Z;
  state : option view_state
}.

End Node.
End Node.

Section Machine.
Context `{RT : Runtime}.

(** ** The tree store, seen through its five insertion methods *)

Inductive method :=
| setWorkflow | addCyclePoint | addFamilyProxy | addTaskProxy | addJob.

Global Instance method_eq_dec : EqDecision method.
Proof. solve_decision. Defined.

Record call := Call { callee : method; argument : Node.t }.

(** The first argument of the orchestrator: a [CylcTree], or any other
    value ([null] and [undefined] among them). *)
Inductive tree_arg :=
| CylcTree
| NotATree (v : val).

Definition tree_truthy (tree : tree_arg) : bool :=
  match tree with CylcTree => true | NotATree v => truthy v end.

(** ** Computations: shared heap, recorded calls, exceptions *)

Record machine := Machine {
  heap : gmap loc cell;
  calls : list call
}.

Inductive error :=
| Error (message : string)
| TypeError.

Inductive completion (A : Type) :=
| Normal (a : A)
| Throw (e : error).
Global Arguments Normal {A} a.
Global Arguments Throw {A} e.

Definition js (A : Type) : Type := machine -> completion A * machine.

Definition ret {A} (a : A) : js A := fun σ => (Normal a, σ).

Definition throw {A} (e : error) : js A := fun σ => (Throw e, σ).

(** Sequencing: an exception skips the rest, and keeps the heap and the
    calls as they were when it was raised. *)
Definition bind {A B} (k : A -> js B) (m : js A) : js B := fun σ =>
  match m σ with
  | (Normal a, σ') => k a σ'
  | (Throw e, σ') => (Throw e, σ')
  end.

Global Instance js_ret : MRet js := @ret.
Global Instance js_bind : MBind js := @bind.

End Machine.

Section Program.
Context `{RT : Runtime}.

(** [v.k] *)
Definition get (v : val) (k : string) : js val := fun σ =>
  match v with
  | VUndefined | VNull => (Throw TypeError, σ)
  | VRef l => (Normal (read (heap σ) l k), σ)
  | _ => (Normal VUndefined, σ)
  end.

(** [v.k = x]; the module is strict-mode code, where assigning to a
    property of a primitive raises. *)
Definition assign (v : val) (k : string) (x : val) : js unit := fun σ =>
  match v with
  | VRef l => (Normal tt, Machine (write (heap σ) l k x) (calls σ))
  | _ => (Throw TypeError, σ)
  end.

(** [tree.m(n)] *)
Definition invoke (tree : tree_arg) (m : method) (n : Node.t) : js unit :=
  fun σ =>
  match tree with
  | CylcTree => (Normal tt, Machine (heap σ) (calls σ ++ [Call m n]))
  | NotATree _ => (Throw TypeError, σ)
  end.

(** [a && b] *)
Definition and_then (a b : js val) : js val :=
  x ← a; if truthy x then b else ret x.

(** [a || b] *)
Definition or_else (a b : js val) : js val :=
  x ← a; if truthy x then ret x else b.

(** [!a] *)
Definition negation (a : js val) : js val :=
  x ← a; ret (VBool (negb (truthy x))).

Definition Array_isArray (v : val) : js val := fun σ =>
  (Normal (VBool (isArray (heap σ) v)), σ).

Fixpoint each (body : val -> js unit) (l : list val) : js unit :=
  match l with
  | [] => ret tt
  | x :: r => body x ;; each body r
  end.

(** [for (const x of v) body]; the loop bodies of this module never write
    array elements, so the elements are those found when the loop starts. *)
Definition for_of (v : val) (body : val -> js unit) : js unit := fun σ =>
  match iterate (heap σ) v with
  | Some l => each body l σ
  | None => (Throw TypeError, σ)
  end.

(** [`${v}-details`] *)
Definition details_id (v : val) : js val := fun σ =>
  match ToString v with
  | Some s => (Normal (VStr (s ++ "-details")), σ)
  | None => (Throw TypeError, σ)
  end.

(** ** Constants *)

Definition JOB_DETAIL_NODE_PROPERTIES : list (string * string) :=
  [ ("host id", "host");
    ("job id", "batchSysJobId");
    ("batch sys", "batchSysName");
    ("submit time", "submittedTime");
    ("start time", "startedTime");
    ("finish time", "finishedTime");
    ("latest message", "latestMessage") ].

Definition TREE_ITEM_SIZE : Z := 32%Z.

(** ** Node factories *)

Definition createWorkflowNode (workflow : val) : js Node.t :=
  id ← get workflow "id";
  ret (Node.Make id "workflow" (Shared workflow) None [] None None).

Definition createCyclePointNode (familyProxy : val) : js Node.t :=
  id ← get familyProxy "cyclePoint";
  node_id ← get familyProxy "cyclePoint";
  node_name ← get familyProxy "cyclePoint";
  ret (Node.Make id "cyclepoint"
         (Literal [("id", node_id); ("name", node_name)]) None []
         (Some TREE_ITEM_SIZE) (Some (ViewState true))).

Definition createFamilyProxyNode (familyProxy : val) : js Node.t :=
  id ← get familyProxy "id";
  ret (Node.Make id "family-proxy" (Shared familyProxy) None []
         (Some TREE_ITEM_SIZE) (Some (ViewState true))).

Definition createTaskProxyNode (taskProxy : val) : js Node.t :=
  state ← get taskProxy "state";
  (if negb (truthy state) then assign taskProxy "state" (VStr "") else ret tt) ;;
  id ← get taskProxy "id";
  ret (Node.Make id "task-proxy" (Shared taskProxy) None []
         (Some TREE_ITEM_SIZE) (Some (ViewState false))).

(** The default value of the optional second parameter. *)
Definition default_message (latestMessage : val) : val :=
  match latestMessage with VUndefined => VStr "" | v => v end.

Definition createJobNode (job : val) (latestMessage : val) : js Node.t :=
  let latestMessage := default_message latestMessage in
  job_id ← get job "id";
  details ← details_id job_id;
  let jobDetailsNode :=
    Node.Make details "job-details" (Shared job) None []
      (Some (TREE_ITEM_SIZE * Z.of_nat (length JOB_DETAIL_NODE_PROPERTIES))%Z)
      (Some (ViewState false)) in
  id ← get job "id";
  ret (Node.Make id "job" (Shared job) (Some latestMessage) [jobDetailsNode]
         (Some TREE_ITEM_SIZE) (Some (ViewState false))).

(** ** Validator *)

Definition containsTreeData (workflow : val) : js val :=
  and_then (ret (VBool (negb (is_undefined workflow))))
 (and_then (ret (VBool (negb (is_null workflow))))
 (and_then (get workflow "cyclePoints")
 (and_then (v ← get workflow "cyclePoints"; Array_isArray v)
 (and_then (get workflow "familyProxies")
 (and_then (v ← get workflow "familyProxies"; Array_isArray v)
 (and_then (get workflow "taskProxies")
           (v ← get workflow "taskProxies"; Array_isArray v))))))).

(** ** Orchestrator *)

Definition populateTreeFromGraphQLData (tree : tree_arg) (workflow : val)
  : js unit :=
  invalid ← or_else (ret (VBool (negb (tree_truthy tree))))
           (or_else (negation (ret workflow))
                    (negation (containsTreeData workflow)));
  if truthy invalid then
    throw (Error "You must provide valid data to populate the tree!")
  else
    rootNode ← createWorkflowNode workflow;
    invoke tree setWorkflow rootNode;;
    cyclePoints ← get workflow "cyclePoints";
    for_of cyclePoints (λ cyclePoint,
      cyclePointNode ← createCyclePointNode cyclePoint;
      invoke tree addCyclePoint cyclePointNode);;
    familyProxies ← get workflow "familyProxies";
    for_of familyProxies (λ familyProxy,
      familyProxyNode ← createFamilyProxyNode familyProxy;
      invoke tree addFamilyProxy familyProxyNode);;
    taskProxies ← get workflow "taskProxies";
    for_of taskProxies (λ taskProxy,
      taskProxyNode ← createTaskProxyNode taskProxy;
      invoke tree addTaskProxy taskProxyNode;;
      jobs ← get taskProxy "jobs";
      if truthy jobs then
        jobs ← get taskProxy "jobs";
        for_of jobs (λ job,
          latestMessage ← get taskProxy "latestMessage";
          jobNode ← createJobNode job latestMessage;
          invoke tree addJob jobNode)
      else ret tt).

End Program.

(** ** Vocabulary of the specification *)

Section Specification.
Context `{RT : Runtime}.
Implicit Types (h : gmap loc cell) (l : loc) (k : string) (v : val).

(** The value of [v.k] for a [v] that is neither [null] nor [undefined]. *)
Definition field h v k : val :=
  match v with VRef l => read h l k | _ => VUndefined end.

Definition elements h v : list val := default [] (iterate h v).

(** The validator in the specification's words: field [k] of the record
    is present and is an array, whatever its elements. *)
Definition array_field h v k : Prop :=
  ∃ l a, v = VRef l
       ∧ props (cell_at h l) !! k = Some (VRef a)
       ∧ is_Some (items (cell_at h a)).

Definition has_tree_data h v : Prop :=
  v ≠ VUndefined ∧ v ≠ VNull
  ∧ array_field h v "cyclePoints"
  ∧ array_field h v "familyProxies"
  ∧ array_field h v "taskProxies".

(** The nodes of section 3, as functions of the record they describe. *)
Definition workflow_node h v : Node.t :=
  Node.Make (field h v "id") "workflow" (Shared v) None [] None None.

Definition cycle_point_node h v : Node.t :=
  let cp := field h v "cyclePoint" in
  Node.Make cp "cyclepoint" (Literal [("id", cp); ("name", cp)]) None []
    (Some 32%Z) (Some (ViewState true)).

Definition family_proxy_node h v : Node.t :=
  Node.Make (field h v "id") "family-proxy" (Shared v) None []
    (Some 32%Z) (Some (ViewState true)).

Definition task_proxy_node h v : Node.t :=
  Node.Make (field h v "id") "task-proxy" (Shared v) None []
    (Some 32%Z) (Some (ViewState false)).

Definition job_details_node h v : Node.t :=
  Node.Make (VStr (default "" (ToString (field h v "id")) ++ "-details"))
    "job-details" (Shared v) None [] (Some 224%Z) (Some (ViewState false)).

(** [message] is what the caller passes as the second argument. *)
Definition job_node h (message : val) v : Node.t :=
  Node.Make (field h v "id") "job" (Shared v)
    (Some (default_message message))
    [job_details_node h v] (Some 32%Z) (Some (ViewState false)).

(** The jobs of a task proxy: the sequence its [jobs] field holds, when
    it holds one. *)
Definition jobs_of h v : list val :=
  if truthy (field h v "jobs") then elements h (field h v "jobs") else [].

(** The insertions of section 4.3, in order. *)
Definition task_proxy_calls h v : list call :=
  Call addTaskProxy (task_proxy_node h v)
  :: map (λ job, Call addJob (job_node h (field h v "latestMessage") job))
         (jobs_of h v).

Definition expected_calls h (workflow : val) : list call :=
  [Call setWorkflow (workflow_node h workflow)]
  ++ map (λ cp, Call addCyclePoint (cycle_point_node h cp))
         (elements h (field h workflow "cyclePoints"))
  ++ map (λ fp, Call addFamilyProxy (family_proxy_node h fp))
         (elements h (field h workflow "familyProxies"))
  ++ concat (map (task_proxy_calls h)
         (elements h (field h workflow "taskProxies"))).

Definition count_calls (m : method) (log : list call) : nat :=
  length (filter (λ c, callee c = m) log).

(** Records the orchestrator can process.  A value is readable when its
    properties can be read: anything but [null] and [undefined].  Cycle
    points and family proxies must be readable; a task proxy must be an
    object, since its [state] may be written, and its [jobs], when truthy,
    must be iterable and hold readable jobs whose [id] can be printed. *)
Definition readable v : bool := negb (is_nullish v).

Definition printable_job h v : bool :=
  readable v && bool_decide (is_Some (ToString (field h v "id"))).

Definition well_formed_task_proxy h v : bool :=
  is_ref v
  && (negb (truthy (field h v "jobs"))
      || match iterate h (field h v "jobs") with
         | Some jobs => forallb (printable_job h) jobs
         | None => false
         end).

Definition well_formed h (workflow : val) : bool :=
  forallb readable (elements h (field h workflow "cyclePoints"))
  && forallb readable (elements h (field h workflow "familyProxies"))
  && forallb (well_formed_task_proxy h)
       (elements h (field h workflow "taskProxies")).

(** Ids carried by a node and its descendants, and by a sequence of
    calls. *)
Fixpoint node_ids (n : Node.t) : list val :=
  match n with
  | Node.Make id _ _ _ children _ _ => id :: flat_map node_ids children
  end.

Definition call_ids (log : list call) : list val :=
  flat_map (λ c, node_ids (argument c)) log.

(** Reading a property through a node's [node] field. *)
Definition payload_field h (p : payload) k : val :=
  match p with
  | Shared v => field h v k
  | Literal fields => default VUndefined (list_to_map (M := gmap string val) fields !! k)
  end.

(** The heap once the [state] of the object at [l] has been defaulted. *)
Definition default_state h l : gmap loc cell :=
  if truthy (read h l "state") then h else write h l "state" (VStr "").

(** ** Heaps that differ by state defaulting

    [defaulted h h']: [h'] is [h] where some falsy [state] properties have
    become the empty string. *)
Definition defaulted h h' : Prop :=
  ∀ l, items (cell_at h' l) = items (cell_at h l)
     ∧ ∀ k, read h' l k = read h l k
          ∨ (k = "state" ∧ truthy (read h l "state") = false
             ∧ read h' l "state" = VStr "").

(** [alike h h']: the two heaps agree on everything this module can tell
    apart except the value of falsy [state] properties. *)
Definition alike h h' : Prop :=
  ∀ l, items (cell_at h l) = items (cell_at h' l)
     ∧ (∀ k, k ≠ "state" → read h l k = read h' l k)
     ∧ truthy (read h l "state") = truthy (read h' l "state").

Definition alike_machines (σ1 σ2 : machine) : Prop :=
  alike (heap σ1) (heap σ2) ∧ calls σ1 = calls σ2.

(** A computation that cannot tell alike heaps apart. *)
Definition respectful {A} (m : js A) : Prop :=
  ∀ σ1 σ2, alike_machines σ1 σ2 →
    (m σ1).1 = (m σ2).1 ∧ alike_machines (m σ1).2 (m σ2).2.

(** A computation whose only effect on the heap is state defaulting. *)
Definition defaulting {A} (m : js A) : Prop :=
  ∀ σ, defaulted (heap σ) (heap (m σ).2).

End Specification.

(** ** A concrete runtime and sample data

    Integer-valued numbers printed in decimal, and objects that all print
    as plain objects do. *)

Definition sample_runtime : Runtime := {|
  number := Z;
  number_truthy := λ n, negb (n =? 0)%Z;
  number_to_string := pretty;
  object_to_string := λ _, Some "[object Object]"
|}.

Section Samples.
Local Existing Instance sample_runtime.

Definition object (fields : list (string * val)) : cell :=
  Cell (list_to_map fields) None.

Definition array (elements : list val) : cell :=
  Cell ∅ (Some elements).

(** The workflow of the specification's example:
    [{id:'w1', cyclePoints:[{cyclePoint:'2024'}], familyProxies:[{id:'f1'}],
      taskProxies:[{id:'t1', jobs:[{id:'j1'}]}]}] at location 0. *)
Definition sample_heap : gmap loc cell :=
  list_to_map [
    (0, object [("id", VStr "w1"); ("cyclePoints", VRef 1);
                ("familyProxies", VRef 2); ("taskProxies", VRef 3)]);
    (1, array [VRef 4]);
    (2, array [VRef 5]);
    (3, array [VRef 6]);
    (4, object [("cyclePoint", VStr "2024")]);
    (5, object [("id", VStr "f1")]);
    (6, object [("id", VStr "t1"); ("jobs", VRef 7)]);
    (7, array [VRef 8]);
    (8, object [("id", VStr "j1")]) ].

(** [{cyclePoints:[null], familyProxies:[], taskProxies:[]}] at location 0. *)
Definition null_cycle_point_heap : gmap loc cell :=
  list_to_map [
    (0, object [("cyclePoints", VRef 1); ("familyProxies", VRef 2);
                ("taskProxies", VRef 2)]);
    (1, array [VNull]);
    (2, array []) ].

(** [{id:'t1', state:0}] at location 0. *)
Definition zero_state_heap : gmap loc cell :=
  list_to_map [ (0, object [("id", VStr "t1"); ("state", VNum 0%Z)]) ].

End Samples.

(** ** Further vocabulary: frames and call discipline *)

Section Frames.
Context `{RT : Runtime}.
Implicit Types (h : gmap loc cell) (l : loc) (k : string) (v : val).

(** The objects listed in the workflow's [taskProxies]. *)
Definition is_task_proxy h v l : Prop :=
  VRef l ∈ elements h (field h v "taskProxies").

(** [touched_only L h h']: every array of [h'] has the elements it has in
    [h], and every property of every object is present or absent in [h']
    as in [h] and with the same value, except that a falsy [state] of an
    object in [L] may have become the empty string. *)
Definition touched_only (L : loc → Prop) h h' : Prop :=
  ∀ l, items (cell_at h' l) = items (cell_at h l)
     ∧ ∀ k, props (cell_at h' l) !! k = props (cell_at h l) !! k
          ∨ (k = "state" ∧ L l ∧ truthy (read h l "state") = false
             ∧ props (cell_at h' l) !! "state" = Some (VStr "")).

(** A computation that, started from a heap alike to [h0], touches only
    the objects in [L]. *)
Definition touching h0 (L : loc → Prop) {A} (m : js A) : Prop :=
  ∀ σ, alike h0 (heap σ) → touched_only L (heap σ) (heap (m σ).2).

(** A computation that, run again after its own effects (and any further
    state defaulting) have taken place, leaves the heap as it finds it. *)
Definition settled {A} (m : js A) : Prop :=
  ∀ σ h', defaulted (heap (m σ).2) h' →
    heap (m (Machine h' (calls σ))).2 = h'.

(** A computation that only appends to the calls received by the tree
    and raises nothing but [TypeError]. *)
Definition orderly {A} (m : js A) : Prop :=
  ∀ σ, (∃ new, calls (m σ).2 = (calls σ ++ new)%list)
     ∧ ∀ e, (m σ).1 = Throw e → e = TypeError.

Definition steady {A} (m : js A) : Prop :=
  respectful m ∧ defaulting m ∧ settled m.

End Frames.

(** ** The mock workflow service: the [unsubscribe] closure

    [src/services/mock/workflow.service.mock.js], the function stored in
    the subscription object that [startDeltasSubscription] builds:
    [this.subscriptions.splice(this.subscriptions.indexOf(subscription), 1)]. *)

Section Subscriptions.
Context `{RT : Runtime}.

(** Equality of two numbers of the runtime ([NaN] differs from itself). *)
Variable number_equals : number → number → bool.

(** [x === y] *)
Definition strict_equals (x y : val) : bool :=
  match x, y with
  | VUndefined, VUndefined => true
  | VNull, VNull => true
  | VBool a, VBool b => bool_decide (a = b)
  | VNum a, VNum b => number_equals a b
  | VStr a, VStr b => String.eqb a b
  | VRef a, VRef b => bool_decide (a = b)
  | _, _ => false
  end.

(** [xs.indexOf(x)]: the first index holding an element strictly equal to
    [x], or -1. *)
Fixpoint indexOf_from (xs : list val) (x : val) (i : Z) : Z :=
  match xs with
  | [] => (-1)%Z
  | y :: r => if strict_equals x y then i else indexOf_from r x (i + 1)%Z
  end.

Definition Array_indexOf (xs : list val) (x : val) : Z := indexOf_from xs x 0.

(** [xs.splice(start, deleteCount)]: the elements left in the array.  A
    negative [start] counts from the end; both arguments are clamped to
    the array. *)
Definition Array_splice (xs : list val) (start deleteCount : Z) : list val :=
  let len := Z.of_nat (length xs) in
  let actualStart :=
    if (start <? 0)%Z then Z.max (len + start) 0 else Z.min start len in
  let actualDeleteCount :=
    Z.min (Z.max deleteCount 0) (len - actualStart) in
  take (Z.to_nat actualStart) xs
  ++ drop (Z.to_nat (actualStart + actualDeleteCount)) xs.

(** The heap once the array at [a] holds [xs]. *)
Definition store_items (h : gmap loc cell) (a : loc) (xs : list val)
  : gmap loc cell :=
  <[a := Cell (props (cell_at h a)) (Some xs)]> h.

(** Only an array has both [splice] and [indexOf]: on any other value of
    [this.subscriptions] the statement ends in a [TypeError] before
    anything is written. *)
Definition unsubscribe (this subscription : val) : js unit := fun σ =>
  match get this "subscriptions" σ with
  | (Normal (VRef a), _) =>
      match items (cell_at (heap σ) a) with
      | Some xs =>
          (Normal tt,
           Machine (store_items (heap σ) a
                      (Array_splice xs (Array_indexOf xs subscription) 1))
                   (calls σ))
      | None => (Throw TypeError, σ)
      end
  | (Normal _, _) => (Throw TypeError, σ)
  | (Throw e, _) => (Throw e, σ)
  end.

End Subscriptions.

(** ** The router: the [beforeResolve] guard

    [src/router/index.js].  The progress bar, the store and [next] are
    outside the module; the guard is represented by the sequence of calls
    it makes to them.  The route objects are read, never written. *)

Section Router.
Context `{RT : Runtime}.

Inductive router_call :=
| NProgress_start
| store_commit (type : string) (payload : val)
| store_dispatch (type : string) (payload : val)
| next.

(** [['Tree', 'Dot'].includes(v)] *)
Definition is_workflow_view (v : val) : bool :=
  match v with
  | VStr s => String.eqb s "Tree" || String.eqb s "Dot"
  | _ => false
  end.

Definition beforeResolve (h : gmap loc cell) (to : val)
  : completion unit * list router_call :=
  let started := [NProgress_start] in
  if is_nullish to then (Throw TypeError, started)
  else if truthy (field h to "name") then
    if is_workflow_view (field h to "name") then
      let params := field h to "params" in
      if is_nullish params then (Throw TypeError, started)
      else (Normal tt,
            (started
             ++ [store_commit "app/setTitle" (field h params "name");
                 store_dispatch "setAlert" VNull; next])%list)
    else (Normal tt,
          (started
           ++ [store_commit "app/setTitle" (field h to "name");
               store_dispatch "setAlert" VNull; next])%list)
  else (Normal tt, (started ++ [next])%list).

Definition is_next (c : router_call) : bool :=
  match c with next => true | _ => false end.

Definition count_next (made : list router_call) : nat :=
  length (filter (λ c, is_next c = true) made).

Definition is_commit (c : router_call) : bool :=
  match c with store_commit _ _ => true | _ => false end.

Definition count_commits (made : list router_call) : nat :=
  length (filter (λ c, is_commit c = true) made).

End Router.

(** ** More sample data *)

Section MoreSamples.
Local Existing Instance sample_runtime.

(** [{id:'w0', cyclePoints:[], familyProxies:[], taskProxies:[]}] at
    location 0. *)
Definition empty_workflow_heap : gmap loc cell :=
  list_to_map [
    (0, object [("id", VStr "w0"); ("cyclePoints", VRef 1);
                ("familyProxies", VRef 2); ("taskProxies", VRef 3)]);
    (1, array []); (2, array []); (3, array []) ].

(** A service at location 0 with two subscriptions started: the array at
    1 holds the wrappers 2 and 3 of the subscription objects 4 and 5. *)
Definition two_subscriptions_heap : gmap loc cell :=
  list_to_map [
    (0, object [("subscriptions", VRef 1)]);
    (1, array [VRef 2; VRef 3]);
    (2, object [("subscription", VRef 4)]);
    (3, object [("subscription", VRef 5)]);
    (4, object []); (5, object []) ].

(** Equality of the sample runtime's numbers. *)
Definition sample_number_equals
  : @number sample_runtime → @number sample_runtime → bool := Z.eqb.

End MoreSamples.

(** * Properties *)

Section Heap.
Context `{RT : Runtime}.
Implicit Types (h : gmap loc cell) (l : loc) (k : string) (v x : val).

Lemma cell_at_write h l k x l' :
  cell_at (write h l k x) l' =
  if decide (l = l')
  then Cell (<[k := x]> (props (cell_at h l))) (items (cell_at h l))
  else cell_at h l'.
Proof.
  unfold write, cell_at at 1. rewrite lookup_insert.
  destruct (decide (l = l')); reflexivity.
Qed.

Lemma items_write h l k x l' :
  items (cell_at (write h l k x) l') = items (cell_at h l').
Proof.
  rewrite cell_at_write. destruct (decide (l = l')) as [->|]; reflexivity.
Qed.

Lemma props_write h l k x l' k' :
  props (cell_at (write h l k x) l') !! k' =
  if decide (l = l' ∧ k = k') then Some x else props (cell_at h l') !! k'.
Proof.
  rewrite cell_at_write.
  destruct (decide (l = l')) as [->|Hl]; simpl.
  - rewrite lookup_insert. destruct (decide (k = k')) as [->|Hk].
    + rewrite decide_True; auto.
    + rewrite decide_False; tauto.
  - rewrite decide_False; tauto.
Qed.

Lemma read_write h l k x l' k' :
  read (write h l k x) l' k' =
  if decide (l = l' ∧ k = k') then x else read h l' k'.
Proof.
  unfold read. rewrite props_write. case_decide; reflexivity.
Qed.

End Heap.

Section Running.
Context `{RT : Runtime}.
Implicit Types (h : gmap loc cell) (l : loc) (k : string) (v : val)
  (σ : machine).

Lemma run_bind {A B} (m : js A) (f : A → js B) σ :
  (m ≫= f) σ =
  match m σ with
  | (Normal a, σ') => f a σ'
  | (Throw e, σ') => (Throw e, σ')
  end.
Proof. reflexivity. Qed.

Lemma bind_ret {A B} (a : A) (f : A → js B) σ : (ret a ≫= f) σ = f a σ.
Proof. reflexivity. Qed.

Lemma bind_throw {A B} e (f : A → js B) σ :
  (throw e ≫= f) σ = (Throw e, σ).
Proof. reflexivity. Qed.

Lemma bind_bind {A B C} (m : js A) (f : A → js B) (g : B → js C) σ :
  ((m ≫= f) ≫= g) σ = (m ≫= λ a, f a ≫= g) σ.
Proof. rewrite !run_bind. destruct (m σ) as [[a|e] σ']; reflexivity. Qed.

Lemma bind_get_ref {B} l k (f : val → js B) σ :
  (get (VRef l) k ≫= f) σ = f (read (heap σ) l k) σ.
Proof. reflexivity. Qed.

Lemma bind_isArray {B} v (f : val → js B) σ :
  (Array_isArray v ≫= f) σ = f (VBool (isArray (heap σ) v)) σ.
Proof. reflexivity. Qed.

Lemma run_ret {A} (a : A) σ : ret a σ = (Normal a, σ).
Proof. reflexivity. Qed.

Lemma run_throw {A} e σ : throw (A := A) e σ = (Throw e, σ).
Proof. reflexivity. Qed.

Lemma run_get_ref l k σ :
  get (VRef l) k σ = (Normal (read (heap σ) l k), σ).
Proof. reflexivity. Qed.

Lemma run_isArray v σ :
  Array_isArray v σ = (Normal (VBool (isArray (heap σ) v)), σ).
Proof. reflexivity. Qed.

Lemma get_record v k σ :
  is_nullish v = false → get v k σ = (Normal (field (heap σ) v k), σ).
Proof. destruct v; simpl; intros; try discriminate; reflexivity. Qed.

Lemma bind_get_record {B} v k (f : val → js B) σ :
  is_nullish v = false → (get v k ≫= f) σ = f (field (heap σ) v k) σ.
Proof. intros H. rewrite run_bind, get_record by done. reflexivity. Qed.

Lemma get_nullish v k σ :
  is_nullish v = true → get v k σ = (Throw TypeError, σ).
Proof. destruct v; simpl; intros; try discriminate; reflexivity. Qed.

End Running.

Create Rewrite HintDb js.
#[export] Hint Rewrite @bind_ret @bind_throw @bind_bind @bind_get_ref
  @bind_isArray @run_ret @run_throw @run_get_ref @run_isArray : js.

Section Validator.
Context `{RT : Runtime}.
Implicit Types (h : gmap loc cell) (l : loc) (k : string) (v : val)
  (σ : machine).

Lemma isArray_truthy h v : isArray h v = true → truthy v = true.
Proof. destruct v; simpl; intros; try discriminate; reflexivity. Qed.

Lemma isArray_read h l k :
  isArray h (read h l k) = true ↔ array_field h (VRef l) k.
Proof.
  unfold array_field, read. split.
  - destruct (props (cell_at h l) !! k) as [[]|] eqn:E; simpl;
      try discriminate.
    intros H%bool_decide_eq_true. eauto.
  - intros (l' & a & [= <-] & -> & H). simpl. by apply bool_decide_eq_true.
Qed.

(** The validator always returns, changes nothing, and its result is
    [true] on records of the right shape and falsy on everything else. *)
Lemma containsTreeData_run v σ :
  ∃ r, containsTreeData v σ = (Normal r, σ)
     ∧ ((has_tree_data (heap σ) v ∧ r = VBool true)
        ∨ (¬ has_tree_data (heap σ) v ∧ truthy r = false)).
Proof.
  unfold has_tree_data.
  destruct v as [| |b|n|s|l];
    try (eexists; split; [reflexivity|]; right; split;
         [ intros (? & ? & (? & ? & ? & _) & _); congruence
         | reflexivity ]).
  pose proof (isArray_read (heap σ) l "cyclePoints") as Hc.
  pose proof (isArray_read (heap σ) l "familyProxies") as Hf.
  pose proof (isArray_read (heap σ) l "taskProxies") as Ht.
  unfold containsTreeData, and_then.
  do 3 (autorewrite with js; simpl).
  destruct (truthy (read (heap σ) l "cyclePoints")) eqn:Tc.
  2:{ eexists; split; [reflexivity|]. right. split; [|done].
      intros (_ & _ & H%Hc%isArray_truthy & _). congruence. }
  autorewrite with js; simpl.
  destruct (isArray (heap σ) (read (heap σ) l "cyclePoints")) eqn:Ac.
  2:{ eexists; split; [reflexivity|]. right. split; [|done].
      intros (_ & _ & H%Hc & _). congruence. }
  autorewrite with js; simpl.
  destruct (truthy (read (heap σ) l "familyProxies")) eqn:Tf.
  2:{ eexists; split; [reflexivity|]. right. split; [|done].
      intros (_ & _ & _ & H%Hf%isArray_truthy & _). congruence. }
  autorewrite with js; simpl.
  destruct (isArray (heap σ) (read (heap σ) l "familyProxies")) eqn:Af.
  2:{ eexists; split; [reflexivity|]. right. split; [|done].
      intros (_ & _ & _ & H%Hf & _). congruence. }
  autorewrite with js; simpl.
  destruct (truthy (read (heap σ) l "taskProxies")) eqn:Tt.
  2:{ eexists; split; [reflexivity|]. right. split; [|done].
      intros (_ & _ & _ & _ & H%Ht%isArray_truthy). congruence. }
  autorewrite with js; simpl.
  eexists; split; [reflexivity|].
  destruct (isArray (heap σ) (read (heap σ) l "taskProxies")) eqn:At.
  - left. split; [|reflexivity].
    repeat split; try discriminate; [apply Hc|apply Hf|apply Ht]; done.
  - right. split; [|done]. intros (_ & _ & _ & _ & H%Ht). congruence.
Qed.

(** C3. On every input the validator returns normally and leaves the
    heap and the tree alone; what it returns is [true] exactly when the
    input is neither [null] nor [undefined] and its [cyclePoints],
    [familyProxies] and [taskProxies] fields are present and are arrays,
    whatever those arrays contain. *)
Theorem containsTreeData_spec v σ :
  ∃ r, containsTreeData v σ = (Normal r, σ)
     ∧ (r = VBool true ↔ has_tree_data (heap σ) v).
Proof.
  destruct (containsTreeData_run v σ) as (r & Hrun & [[Hd Hr]|[Hd Hr]]);
    exists r; (split; [exact Hrun|]).
  - tauto.
  - split; [|tauto]. intros ->. discriminate.
Qed.

Lemma accepted_has_tree_data v σ :
  (containsTreeData v σ).1 = Normal (VBool true) ↔ has_tree_data (heap σ) v.
Proof.
  destruct (containsTreeData_run v σ) as (r & -> & [[Hd ->]|[Hd Hr]]); simpl.
  - tauto.
  - split; [|tauto]. intros [= ->]. discriminate.
Qed.

(** C2. When the tree is [null] (or any falsy value), the workflow is
    [null] (or any falsy value), or the validator does not return [true]
    on the workflow, the orchestrator raises the one validation error, and
    the heap and the calls received by the tree are exactly what they
    were: no insertion method has been called. *)
Theorem populate_rejects_invalid_input tree v σ :
  tree_truthy tree = false ∨ truthy v = false
  ∨ (containsTreeData v σ).1 ≠ Normal (VBool true) →
  populateTreeFromGraphQLData tree v σ =
  (Throw (Error "You must provide valid data to populate the tree!"), σ).
Proof.
  intros H. unfold populateTreeFromGraphQLData, or_else, negation.
  autorewrite with js.
  destruct (tree_truthy tree) eqn:Tt; simpl; [|reflexivity].
  autorewrite with js.
  destruct (truthy v) eqn:Tv; simpl; [|reflexivity].
  autorewrite with js.
  destruct (containsTreeData_run v σ) as (r & Hrun & Hr).
  rewrite run_bind, Hrun. rewrite Hrun in H.
  destruct Hr as [[_ ->]|[_ Hr]].
  - destruct H as [?|[?|?]]; [discriminate|discriminate|done].
  - autorewrite with js. rewrite Hr. reflexivity.
Qed.

End Validator.

Section Factories.
Context `{RT : Runtime}.
Implicit Types (h : gmap loc cell) (l : loc) (k : string) (v : val)
  (σ : machine).

Lemma createWorkflowNode_run v σ :
  createWorkflowNode v σ =
  if is_nullish v then (Throw TypeError, σ)
  else (Normal (workflow_node (heap σ) v), σ).
Proof. destruct v; reflexivity. Qed.

Lemma createCyclePointNode_run v σ :
  createCyclePointNode v σ =
  if is_nullish v then (Throw TypeError, σ)
  else (Normal (cycle_point_node (heap σ) v), σ).
Proof. destruct v; reflexivity. Qed.

Lemma createFamilyProxyNode_run v σ :
  createFamilyProxyNode v σ =
  if is_nullish v then (Throw TypeError, σ)
  else (Normal (family_proxy_node (heap σ) v), σ).
Proof. destruct v; reflexivity. Qed.

Lemma createJobNode_run v message σ :
  createJobNode v message σ =
  if is_nullish v then (Throw TypeError, σ)
  else match ToString (field (heap σ) v "id") with
       | Some _ => (Normal (job_node (heap σ) message v), σ)
       | None => (Throw TypeError, σ)
       end.
Proof.
  destruct v; try reflexivity;
    unfold createJobNode, details_id, job_node, job_details_node;
    autorewrite with js; rewrite run_bind; simpl.
  destruct (ToString (read (heap σ) l "id")); reflexivity.
Qed.

Lemma machine_eta σ : Machine (heap σ) (calls σ) = σ.
Proof. destruct σ; reflexivity. Qed.

Lemma createTaskProxyNode_run v σ :
  createTaskProxyNode v σ =
  match v with
  | VRef l => (Normal (task_proxy_node (heap σ) v),
               Machine (default_state (heap σ) l) (calls σ))
  | _ => (Throw TypeError, σ)
  end.
Proof.
  destruct v; try reflexivity.
  unfold createTaskProxyNode, default_state, task_proxy_node.
  autorewrite with js.
  destruct (truthy (read (heap σ) l "state")); simpl;
    autorewrite with js.
  - by rewrite machine_eta.
  - rewrite run_bind. simpl. autorewrite with js. simpl.
    rewrite read_write, decide_False by (intros [_ ?]; discriminate).
    reflexivity.
Qed.

Lemma default_state_read h l l' k :
  read (default_state h l) l' k =
  if decide (l = l' ∧ k = "state" ∧ truthy (read h l "state") = false)
  then VStr "" else read h l' k.
Proof.
  unfold default_state.
  destruct (truthy (read h l "state")) eqn:T.
  - rewrite decide_False; [done|]. intros (_ & _ & ?). discriminate.
  - rewrite read_write.
    destruct (decide (l = l' ∧ "state" = k)) as [[-> <-]|Hn].
    + by rewrite decide_True.
    + rewrite decide_False; [done|]. intros (-> & -> & _). by apply Hn.
Qed.

Lemma default_state_props h l l' k :
  l' ≠ l ∨ k ≠ "state" →
  props (cell_at (default_state h l) l') !! k = props (cell_at h l') !! k.
Proof.
  intros H. unfold default_state.
  destruct (truthy (read h l "state")); [done|].
  rewrite props_write, decide_False; [done|].
  intros [-> <-]. destruct H; congruence.
Qed.

Lemma default_state_items h l l' :
  items (cell_at (default_state h l) l') = items (cell_at h l').
Proof.
  unfold default_state. destruct (truthy (read h l "state")); [done|].
  apply items_write.
Qed.

Lemma default_state_falsy h l :
  truthy (read h l "state") = false →
  props (cell_at (default_state h l) l) !! "state" = Some (VStr "").
Proof.
  intros T. unfold default_state. rewrite T, props_write.
  by rewrite decide_True.
Qed.

Lemma falsy_values v :
  truthy v = false ↔
  v = VUndefined ∨ v = VNull ∨ v = VBool false ∨ v = VStr ""
  ∨ ∃ n, v = VNum n ∧ number_truthy n = false.
Proof.
  split.
  - destruct v as [| |[]|n|s|l]; simpl; intros H; try discriminate.
    + by left.
    + by right; left.
    + by right; right; left.
    + right; right; right; right. by exists n.
    + destruct s; [|discriminate]. by right; right; right; left.
  - intros [->|[->|[->|[->|(n & -> & H)]]]]; done.
Qed.

(** C7. Whatever the input, a cycle-point node has the record's
    cycle-point value as its id and is open, a family-proxy node is open,
    task-proxy and job nodes are closed, and the workflow root has neither
    a size nor a view state. *)
Theorem factory_view_defaults v message σ n σ' :
  (createCyclePointNode v σ = (Normal n, σ') →
     Node.id n = field (heap σ) v "cyclePoint"
     ∧ Node.state n = Some (ViewState true))
  ∧ (createFamilyProxyNode v σ = (Normal n, σ') →
     Node.state n = Some (ViewState true))
  ∧ (createTaskProxyNode v σ = (Normal n, σ') →
     Node.state n = Some (ViewState false))
  ∧ (createJobNode v message σ = (Normal n, σ') →
     Node.state n = Some (ViewState false))
  ∧ (createWorkflowNode v σ = (Normal n, σ') →
     Node.size n = None ∧ Node.state n = None).
Proof.
  rewrite createCyclePointNode_run, createFamilyProxyNode_run,
    createTaskProxyNode_run, createJobNode_run, createWorkflowNode_run.
  repeat apply conj; intros H; destruct v; simpl in H; try discriminate H;
    try (destruct (ToString _); [|discriminate H]);
    injection H as <- _; first [reflexivity | split; reflexivity].
Qed.

(** C8. The workflow, cycle-point, family-proxy and job factories leave
    the whole heap (their input record included) and the tree as they
    found them; the task-proxy factory leaves the tree alone and changes
    at most the [state] property of its input record: every array keeps
    its elements and every other property of every object keeps its
    value or its absence. *)
Theorem factories_frame v message σ :
  (createWorkflowNode v σ).2 = σ
  ∧ (createCyclePointNode v σ).2 = σ
  ∧ (createFamilyProxyNode v σ).2 = σ
  ∧ (createJobNode v message σ).2 = σ
  ∧ calls (createTaskProxyNode v σ).2 = calls σ
  ∧ ∀ l, items (cell_at (heap (createTaskProxyNode v σ).2) l)
         = items (cell_at (heap σ) l)
       ∧ ∀ k, v ≠ VRef l ∨ k ≠ "state" →
           props (cell_at (heap (createTaskProxyNode v σ).2) l) !! k
           = props (cell_at (heap σ) l) !! k.
Proof.
  rewrite createCyclePointNode_run, createFamilyProxyNode_run,
    createTaskProxyNode_run, createJobNode_run, createWorkflowNode_run.
  repeat apply conj;
    try (destruct v; simpl; try destruct (ToString _); reflexivity).
  intros l. split.
  - destruct v; simpl; try done. apply default_state_items.
  - intros k H. destruct v as [| | | | |l']; simpl; try done.
    apply default_state_props. destruct H; [left|right]; congruence.
Qed.

(** C10. The task-proxy factory tests the truthiness of [state], not its
    presence: any falsy value (absent, [''], [null], [false], a falsy
    number such as [0]) is overwritten with the empty string, and a truthy
    value, a non-empty string in particular, is left as it is. *)
Theorem createTaskProxyNode_overwrites_falsy_state l σ :
  let old := read (heap σ) l "state" in
  let σ' := (createTaskProxyNode (VRef l) σ).2 in
  (truthy old = false →
     props (cell_at (heap σ') l) !! "state" = Some (VStr ""))
  ∧ (truthy old = true → σ' = σ)
  ∧ (truthy old = false ↔
     old = VUndefined ∨ old = VNull ∨ old = VBool false ∨ old = VStr ""
     ∨ ∃ n, old = VNum n ∧ number_truthy n = false)
  ∧ (∀ s, old = VStr s → s ≠ "" → σ' = σ).
Proof.
  intros old σ'. subst σ'. rewrite createTaskProxyNode_run. simpl.
  assert (truthy old = true →
          Machine (default_state (heap σ) l) (calls σ) = σ) as Hkeep.
  { intros T. unfold default_state. fold old. rewrite T. apply machine_eta. }
  repeat split.
  - apply default_state_falsy.
  - exact Hkeep.
  - apply falsy_values.
  - apply falsy_values.
  - intros s E Hs. apply Hkeep. rewrite E. simpl.
    destruct s; [done|reflexivity].
Qed.

End Factories.

Section Defaulting.
Context `{RT : Runtime}.
Implicit Types (h : gmap loc cell) (l : loc) (k : string) (v : val)
  (σ : machine).

Lemma defaulted_refl h : defaulted h h.
Proof. intros l. split; [done|]. intros k. by left. Qed.

Lemma defaulted_trans h1 h2 h3 :
  defaulted h1 h2 → defaulted h2 h3 → defaulted h1 h3.
Proof.
  intros H12 H23 l.
  destruct (H12 l) as [I12 R12], (H23 l) as [I23 R23].
  split; [congruence|]. intros k.
  destruct (R23 k) as [E23|(-> & T2 & E3)].
  - destruct (R12 k) as [E12|(-> & T1 & E2)].
    + left. congruence.
    + right. repeat split; congruence.
  - right. repeat split; [|done].
    destruct (R12 "state") as [E12|(_ & T1 & _)]; congruence.
Qed.

Lemma defaulted_default_state h l : defaulted h (default_state h l).
Proof.
  intros l'. split; [apply default_state_items|]. intros k.
  rewrite default_state_read. case_decide as H; [|by left].
  destruct H as (-> & -> & T). right. rewrite default_state_read.
  by rewrite decide_True.
Qed.

Lemma defaulted_state_kept h h' l :
  defaulted h h' → read h l "state" = VStr "" → read h' l "state" = VStr "".
Proof.
  intros H E. destruct (H l) as [_ R].
  destruct (R "state") as [->|(_ & _ & ->)]; done.
Qed.

Lemma defaulted_falsy h h' l :
  defaulted h h' →
  truthy (read h' l "state") = truthy (read h l "state").
Proof.
  intros H. destruct (H l) as [_ R].
  destruct (R "state") as [->|(_ & -> & ->)]; done.
Qed.

Lemma alike_refl h : alike h h.
Proof. intros l. done. Qed.

Lemma alike_sym h h' : alike h h' → alike h' h.
Proof.
  intros H l. destruct (H l) as (I & R & T).
  repeat split; [done| |done]. intros k Hk. symmetry. by apply R.
Qed.

Lemma alike_trans h1 h2 h3 : alike h1 h2 → alike h2 h3 → alike h1 h3.
Proof.
  intros H12 H23 l.
  destruct (H12 l) as (I12 & R12 & T12), (H23 l) as (I23 & R23 & T23).
  repeat split; [congruence| |congruence].
  intros k Hk. rewrite R12, R23; done.
Qed.

Lemma defaulted_alike h h' : defaulted h h' → alike h h'.
Proof.
  intros H l. destruct (H l) as [I R]. repeat split; [done| |].
  - intros k Hk. destruct (R k) as [->|(-> & _)]; done.
  - symmetry. by apply defaulted_falsy.
Qed.

Lemma alike_field h h' v k :
  alike h h' → k ≠ "state" → field h v k = field h' v k.
Proof.
  intros H Hk. destruct v; try reflexivity. simpl. by apply H.
Qed.

Lemma alike_iterate h h' v : alike h h' → iterate h v = iterate h' v.
Proof. intros H. destruct v; try reflexivity. simpl. apply H. Qed.

Lemma alike_isArray h h' v : alike h h' → isArray h v = isArray h' v.
Proof.
  intros H. destruct v; try reflexivity. simpl.
  destruct (H l) as [-> _]. reflexivity.
Qed.

Lemma alike_default_state h h' l :
  alike h h' → alike (default_state h l) (default_state h' l).
Proof.
  intros H l'. destruct (H l') as (I & R & T).
  rewrite !default_state_items. repeat split; [done| |].
  - intros k Hk. rewrite !default_state_read.
    rewrite !decide_False by (intros (_ & ? & _); done). by apply R.
  - rewrite !default_state_read.
    destruct (H l) as (_ & _ & Tl). rewrite <- Tl.
    case_decide; [reflexivity|done].
Qed.

Lemma alike_workflow_node h h' v :
  alike h h' → workflow_node h v = workflow_node h' v.
Proof.
  intros H. unfold workflow_node. by rewrite (alike_field h h' v "id").
Qed.

Lemma alike_cycle_point_node h h' v :
  alike h h' → cycle_point_node h v = cycle_point_node h' v.
Proof.
  intros H. unfold cycle_point_node.
  by rewrite (alike_field h h' v "cyclePoint").
Qed.

Lemma alike_family_proxy_node h h' v :
  alike h h' → family_proxy_node h v = family_proxy_node h' v.
Proof.
  intros H. unfold family_proxy_node. by rewrite (alike_field h h' v "id").
Qed.

Lemma alike_task_proxy_node h h' v :
  alike h h' → task_proxy_node h v = task_proxy_node h' v.
Proof.
  intros H. unfold task_proxy_node. by rewrite (alike_field h h' v "id").
Qed.

Lemma alike_job_node h h' message v :
  alike h h' → job_node h message v = job_node h' message v.
Proof.
  intros H. unfold job_node, job_details_node.
  by rewrite (alike_field h h' v "id").
Qed.

End Defaulting.

Section Combinators.
Context `{RT : Runtime}.
Implicit Types (h : gmap loc cell) (l : loc) (k : string) (v : val)
  (σ : machine).

(** *** Computations that only default states *)

Lemma defaulting_ret {A} (a : A) : defaulting (ret a).
Proof. intros σ. apply defaulted_refl. Qed.

Lemma defaulting_throw {A} e : defaulting (throw (A := A) e).
Proof. intros σ. apply defaulted_refl. Qed.

Lemma defaulting_bind {A B} (m : js A) (f : A → js B) :
  defaulting m → (∀ a, defaulting (f a)) → defaulting (m ≫= f).
Proof.
  intros Hm Hf σ. specialize (Hm σ). rewrite run_bind.
  destruct (m σ) as [[a|e] σ1]; simpl in *; [|done].
  eapply defaulted_trans; [exact Hm|apply Hf].
Qed.

Lemma defaulting_get v k : defaulting (get v k).
Proof. intros σ. destruct v; apply defaulted_refl. Qed.

Lemma defaulting_isArray v : defaulting (Array_isArray v).
Proof. intros σ. apply defaulted_refl. Qed.

Lemma defaulting_invoke tree m n : defaulting (invoke tree m n).
Proof. intros σ. destruct tree; apply defaulted_refl. Qed.

Lemma defaulting_createWorkflowNode v : defaulting (createWorkflowNode v).
Proof.
  intros σ. rewrite createWorkflowNode_run.
  destruct (is_nullish v); apply defaulted_refl.
Qed.

Lemma defaulting_createCyclePointNode v :
  defaulting (createCyclePointNode v).
Proof.
  intros σ. rewrite createCyclePointNode_run.
  destruct (is_nullish v); apply defaulted_refl.
Qed.

Lemma defaulting_createFamilyProxyNode v :
  defaulting (createFamilyProxyNode v).
Proof.
  intros σ. rewrite createFamilyProxyNode_run.
  destruct (is_nullish v); apply defaulted_refl.
Qed.

Lemma defaulting_createTaskProxyNode v : defaulting (createTaskProxyNode v).
Proof.
  intros σ. rewrite createTaskProxyNode_run.
  destruct v; try apply defaulted_refl. apply defaulted_default_state.
Qed.

Lemma defaulting_createJobNode v message :
  defaulting (createJobNode v message).
Proof.
  intros σ. rewrite createJobNode_run.
  destruct (is_nullish v); [|destruct (ToString _)]; apply defaulted_refl.
Qed.

Lemma defaulting_containsTreeData v : defaulting (containsTreeData v).
Proof.
  intros σ. destruct (containsTreeData_run v σ) as (r & -> & _).
  apply defaulted_refl.
Qed.

Lemma defaulting_each body (xs : list val) :
  (∀ x, defaulting (body x)) → defaulting (each body xs).
Proof.
  intros Hb. induction xs as [|x xs IH]; simpl.
  - apply defaulting_ret.
  - apply defaulting_bind; [apply Hb|intros _; exact IH].
Qed.

Lemma defaulting_for_of v body :
  (∀ x, defaulting (body x)) → defaulting (for_of v body).
Proof.
  intros Hb σ. unfold for_of.
  destruct (iterate (heap σ) v) as [xs|]; [|apply defaulted_refl].
  by apply defaulting_each.
Qed.

(** *** Computations that cannot tell alike heaps apart *)

Lemma alike_machines_refl σ : alike_machines σ σ.
Proof. split; [apply alike_refl|done]. Qed.

Lemma respectful_ret {A} (a : A) : respectful (ret a).
Proof. intros σ1 σ2 H. done. Qed.

Lemma respectful_throw {A} e : respectful (throw (A := A) e).
Proof. intros σ1 σ2 H. done. Qed.

Lemma respectful_bind {A B} (m : js A) (f : A → js B) :
  respectful m → (∀ a, respectful (f a)) → respectful (m ≫= f).
Proof.
  intros Hm Hf σ1 σ2 H. destruct (Hm σ1 σ2 H) as [E H']. rewrite !run_bind.
  destruct (m σ1) as [[a1|e1] σ1'], (m σ2) as [[a2|e2] σ2'];
    simpl in *; try discriminate.
  - injection E as ->. by apply Hf.
  - injection E as ->. by split.
Qed.

Lemma respectful_get v k : k ≠ "state" → respectful (get v k).
Proof.
  intros Hk σ1 σ2 [H E]. destruct v; simpl; try done.
  split; [|done]. f_equal. by apply H.
Qed.

Lemma respectful_isArray v : respectful (Array_isArray v).
Proof.
  intros σ1 σ2 [H E]. simpl. split; [|done].
  by rewrite (alike_isArray _ _ v H).
Qed.

Lemma respectful_invoke tree m n : respectful (invoke tree m n).
Proof.
  intros σ1 σ2 [H E]. destruct tree; simpl; [|done].
  split; [done|]. split; simpl; [done|]. by rewrite E.
Qed.

Lemma respectful_details_id v : respectful (details_id v).
Proof.
  intros σ1 σ2 H. unfold details_id. by destruct (ToString v).
Qed.

Lemma respectful_createTaskProxyNode v :
  respectful (createTaskProxyNode v).
Proof.
  intros σ1 σ2 [H E]. rewrite !createTaskProxyNode_run.
  destruct v; try done. simpl.
  rewrite (alike_task_proxy_node _ _ (VRef l) H).
  split; [done|]. split; simpl; [|done]. by apply alike_default_state.
Qed.

Lemma respectful_each body (xs : list val) :
  (∀ x, respectful (body x)) → respectful (each body xs).
Proof.
  intros Hb. induction xs as [|x xs IH]; simpl.
  - apply respectful_ret.
  - apply respectful_bind; [apply Hb|intros _; exact IH].
Qed.

Lemma respectful_for_of v body :
  (∀ x, respectful (body x)) → respectful (for_of v body).
Proof.
  intros Hb σ1 σ2 H. unfold for_of.
  rewrite (alike_iterate _ _ v (proj1 H)).
  destruct (iterate (heap σ2) v) as [xs|]; [|done].
  by apply respectful_each.
Qed.

End Combinators.

Ltac respectful_step :=
  first
    [ apply respectful_createTaskProxyNode
    | apply respectful_bind; [|intros ?]
    | apply respectful_ret
    | apply respectful_throw
    | apply respectful_get; discriminate
    | apply respectful_isArray
    | apply respectful_invoke
    | apply respectful_details_id
    | apply respectful_for_of; intros ?
    | match goal with
      | |- respectful (if ?b then _ else _) => destruct b
      end ].

Ltac defaulting_step :=
  first
    [ apply defaulting_createTaskProxyNode
    | apply defaulting_createWorkflowNode
    | apply defaulting_createCyclePointNode
    | apply defaulting_createFamilyProxyNode
    | apply defaulting_createJobNode
    | apply defaulting_containsTreeData
    | apply defaulting_bind; [|intros ?]
    | apply defaulting_ret
    | apply defaulting_throw
    | apply defaulting_get
    | apply defaulting_invoke
    | apply defaulting_for_of; intros ?
    | match goal with
      | |- defaulting (if ?b then _ else _) => destruct b
      end ].

Section Orchestrator.
Context `{RT : Runtime}.
Implicit Types (h : gmap loc cell) (l : loc) (k : string) (v : val)
  (σ : machine).

Lemma defaulting_populate tree v :
  defaulting (populateTreeFromGraphQLData tree v).
Proof.
  unfold populateTreeFromGraphQLData, or_else, negation.
  repeat defaulting_step.
Qed.

Lemma respectful_populate tree v :
  respectful (populateTreeFromGraphQLData tree v).
Proof.
  unfold populateTreeFromGraphQLData, or_else, negation, containsTreeData,
    and_then, createWorkflowNode, createCyclePointNode,
    createFamilyProxyNode, createJobNode.
  repeat respectful_step.
Qed.

(** C9. Populating a second time, from the heap the first run left
    behind (task-proxy states already defaulted) and a tree with the same
    history, ends the same way and makes the same calls with the same
    nodes, hence the same ids in the same order.  This holds for every
    input, valid or not. *)
Theorem repopulation_same_node_ids tree v σ :
  let first := populateTreeFromGraphQLData tree v σ in
  let second :=
    populateTreeFromGraphQLData tree v (Machine (heap first.2) (calls σ)) in
  second.1 = first.1
  ∧ calls second.2 = calls first.2
  ∧ call_ids (calls second.2) = call_ids (calls first.2).
Proof.
  intros first second.
  assert (alike_machines σ (Machine (heap first.2) (calls σ))) as H.
  { split; [|done]. apply defaulted_alike, defaulting_populate. }
  destruct (respectful_populate tree v _ _ H) as [E [_ C]].
  fold first second in E, C. rewrite <- C. done.
Qed.

End Orchestrator.

Section Population.
Context `{RT : Runtime}.
Implicit Types (h : gmap loc cell) (l : loc) (k : string) (v : val)
  (σ : machine).

Lemma bind_invoke {B} m n (f : unit → js B) σ :
  (invoke CylcTree m n ≫= f) σ
  = f tt (Machine (heap σ) (calls σ ++ [Call m n])).
Proof. reflexivity. Qed.

Lemma run_invoke m n σ :
  invoke CylcTree m n σ
  = (Normal tt, Machine (heap σ) (calls σ ++ [Call m n])).
Proof. reflexivity. Qed.

Lemma forallb_Forall {A} (f : A → bool) (xs : list A) :
  forallb f xs = true → Forall (λ x, f x = true) xs.
Proof.
  induction xs as [|x xs IH]; simpl; [constructor|].
  intros [? ?]%andb_true_iff. constructor; auto.
Qed.

(** A loop whose every iteration appends its own calls and at most
    defaults states. *)
Lemma each_steps h0 body (step : val → list call) (P : val → Prop) xs σ :
  (∀ x σ, P x → alike h0 (heap σ) →
     ∃ h', body x σ = (Normal tt, Machine h' (calls σ ++ step x))
         ∧ defaulted (heap σ) h') →
  Forall P xs → alike h0 (heap σ) →
  ∃ h', each body xs σ
        = (Normal tt, Machine h' (calls σ ++ concat (map step xs)))
      ∧ defaulted (heap σ) h'.
Proof.
  intros Hbody HP. revert σ.
  induction HP as [|x xs Hx HP IH]; intros σ Hσ; simpl.
  - exists (heap σ). rewrite app_nil_r, machine_eta.
    split; [reflexivity|apply defaulted_refl].
  - destruct (Hbody x σ Hx Hσ) as (h1 & E1 & D1).
    rewrite run_bind, E1.
    destruct (IH (Machine h1 (calls σ ++ step x))) as (h2 & E2 & D2).
    { simpl. eapply alike_trans; [exact Hσ|by apply defaulted_alike]. }
    exists h2. rewrite E2. simpl. rewrite app_assoc.
    split; [reflexivity|]. by eapply defaulted_trans.
Qed.

(** Runs the loop at the head of the goal with [each_steps]. *)
Tactic Notation "run_loop" constr(h0) constr(Hstep) constr(Hall)
    "as" simple_intropattern(pat) :=
  match goal with
  | |- context [each ?body ?xs ?σ] =>
    destruct (each_steps h0 body _ _ xs σ Hstep Hall) as pat
  end.

Lemma array_field_elements h v k :
  array_field h v k →
  is_nullish v = false
  ∧ truthy (field h v k) = true
  ∧ iterate h (field h v k) = Some (elements h (field h v k)).
Proof.
  intros (l & a & -> & E & [xs X]). simpl. unfold elements, read.
  rewrite E. simpl. rewrite X. done.
Qed.

Lemma concat_map_singleton {A B} (f : A → B) (xs : list A) :
  concat (map (λ x, [f x]) xs) = map f xs.
Proof. induction xs; simpl; congruence. Qed.

Lemma alike_read h h' l k : alike h h' → k ≠ "state" → read h l k = read h' l k.
Proof. intros H Hk. by apply H. Qed.

Lemma for_of_run v body xs σ :
  iterate (heap σ) v = Some xs → for_of v body σ = each body xs σ.
Proof. intros E. unfold for_of. by rewrite E. Qed.

Lemma cycle_point_step h0 x σ :
  readable x = true → alike h0 (heap σ) →
  ∃ h', (createCyclePointNode x
         ≫= λ n, invoke CylcTree addCyclePoint n) σ
        = (Normal tt,
           Machine h'
             (calls σ ++ [Call addCyclePoint (cycle_point_node h0 x)]))
      ∧ defaulted (heap σ) h'.
Proof.
  intros Hx Hσ. exists (heap σ). split; [|apply defaulted_refl].
  apply negb_true_iff in Hx.
  rewrite run_bind, createCyclePointNode_run, Hx, run_invoke.
  by rewrite (alike_cycle_point_node _ _ x Hσ).
Qed.

Lemma family_proxy_step h0 x σ :
  readable x = true → alike h0 (heap σ) →
  ∃ h', (createFamilyProxyNode x
         ≫= λ n, invoke CylcTree addFamilyProxy n) σ
        = (Normal tt,
           Machine h'
             (calls σ ++ [Call addFamilyProxy (family_proxy_node h0 x)]))
      ∧ defaulted (heap σ) h'.
Proof.
  intros Hx Hσ. exists (heap σ). split; [|apply defaulted_refl].
  apply negb_true_iff in Hx.
  rewrite run_bind, createFamilyProxyNode_run, Hx, run_invoke.
  by rewrite (alike_family_proxy_node _ _ x Hσ).
Qed.

Lemma job_step h0 owner x σ :
  is_nullish owner = false →
  printable_job h0 x = true → alike h0 (heap σ) →
  ∃ h', (get owner "latestMessage"
         ≫= λ latestMessage, createJobNode x latestMessage
         ≫= λ n, invoke CylcTree addJob n) σ
        = (Normal tt,
           Machine h'
             (calls σ
              ++ [Call addJob (job_node h0 (field h0 owner "latestMessage") x)]))
      ∧ defaulted (heap σ) h'.
Proof.
  intros Ho [Hx Hs%bool_decide_eq_true]%andb_true_iff Hσ.
  exists (heap σ). split; [|apply defaulted_refl].
  apply negb_true_iff in Hx. destruct Hs as [s Hs].
  rewrite bind_get_record by done.
  rewrite run_bind, createJobNode_run, Hx.
  rewrite <- (alike_field _ _ x "id" Hσ), Hs by done.
  rewrite run_invoke.
  rewrite <- (alike_field _ _ owner "latestMessage" Hσ) by done.
  by rewrite (alike_job_node _ _ _ x Hσ).
Qed.

Lemma task_proxy_step h0 x σ :
  well_formed_task_proxy h0 x = true → alike h0 (heap σ) →
  ∃ h', (taskProxyNode ← createTaskProxyNode x;
         invoke CylcTree addTaskProxy taskProxyNode;;
         jobs ← get x "jobs";
         if truthy jobs then
           jobs ← get x "jobs";
           for_of jobs (λ job,
             latestMessage ← get x "latestMessage";
             jobNode ← createJobNode job latestMessage;
             invoke CylcTree addJob jobNode)
         else ret tt) σ
        = (Normal tt, Machine h' (calls σ ++ task_proxy_calls h0 x))
      ∧ defaulted (heap σ) h'.
Proof.
  intros [Hx Hjobs]%andb_true_iff Hσ.
  destruct x as [| | | | |l]; try discriminate. clear Hx.
  rewrite run_bind, createTaskProxyNode_run, bind_invoke.
  set (h1 := default_state (heap σ) l).
  assert (defaulted (heap σ) h1) as D1 by apply defaulted_default_state.
  assert (alike h0 h1) as A1.
  { eapply alike_trans; [exact Hσ|by apply defaulted_alike]. }
  rewrite (bind_get_ref l "jobs"). cbn [heap calls].
  rewrite <- (alike_read _ _ l "jobs" A1) by done.
  rewrite <- (alike_task_proxy_node _ _ (VRef l) Hσ).
  unfold task_proxy_calls, jobs_of. cbn [field] in Hjobs |- *.
  destruct (truthy (read h0 l "jobs")) eqn:Tj; simpl in Hjobs.
  - destruct (iterate h0 (read h0 l "jobs")) as [jobs|] eqn:Ij;
      [|discriminate].
    rewrite (bind_get_ref l "jobs"). cbn [heap calls].
    rewrite <- (alike_read _ _ l "jobs" A1) by done.
    rewrite (for_of_run _ _ jobs)
      by (simpl; by rewrite <- (alike_iterate _ _ _ A1)).
    run_loop h0 (λ job σ', job_step h0 (VRef l) job σ' eq_refl)
      (forallb_Forall _ _ Hjobs) as (h2 & E2 & D2); [exact A1|].
    exists h2. rewrite E2. cbn [heap calls]. unfold elements. rewrite Ij.
    simpl. rewrite concat_map_singleton, <- app_assoc. simpl.
    split; [reflexivity|]. by eapply defaulted_trans.
  - exists h1. split; [reflexivity|exact D1].
Qed.

Lemma populate_run v σ :
  has_tree_data (heap σ) v → well_formed (heap σ) v = true →
  ∃ h', populateTreeFromGraphQLData CylcTree v σ
        = (Normal tt, Machine h' (calls σ ++ expected_calls (heap σ) v))
      ∧ defaulted (heap σ) h'.
Proof.
  intros Hd Hw.
  unfold populateTreeFromGraphQLData, or_else, negation.
  autorewrite with js. simpl.
  destruct Hd as (Hu & Hn & [Hc [Hf Ht]]).
  pose proof Hc as (Nv & Tc & Ic)%array_field_elements.
  pose proof Hf as (_ & Tf & If)%array_field_elements.
  pose proof Ht as (_ & Tt & It)%array_field_elements.
  assert (truthy v = true) as Tv.
  { destruct Hc as (l & a & -> & _). reflexivity. }
  autorewrite with js. rewrite Tv. simpl. autorewrite with js.
  destruct (containsTreeData_run v σ) as (r & Hrun & [[_ ->]|[Hno _]]).
  2:{ exfalso. apply Hno. repeat split; assumption. }
  rewrite run_bind, Hrun. autorewrite with js. simpl.
  rewrite run_bind, createWorkflowNode_run, Nv.
  rewrite bind_invoke.
  rewrite bind_get_record by done. cbn [heap calls].
  unfold well_formed in Hw.
  apply andb_true_iff in Hw as [[Wc Wf]%andb_true_iff Wt].
  set (h0 := heap σ) in *.
  (* cycle points *)
  rewrite run_bind,
    (for_of_run _ _ (elements h0 (field h0 v "cyclePoints"))) by exact Ic.
  run_loop h0 (cycle_point_step h0) (forallb_Forall _ _ Wc)
    as (h1 & E1 & D1); [apply alike_refl|]. rewrite E1. clear E1.
  assert (alike h0 h1) as A1 by by apply defaulted_alike.
  (* family proxies *)
  rewrite bind_get_record by done. cbn [heap calls].
  rewrite <- (alike_field _ _ v "familyProxies" A1) by done.
  rewrite run_bind,
    (for_of_run _ _ (elements h0 (field h0 v "familyProxies")))
    by (simpl; by rewrite <- (alike_iterate _ _ _ A1)).
  run_loop h0 (family_proxy_step h0) (forallb_Forall _ _ Wf)
    as (h2 & E2 & D2); [exact A1|]. rewrite E2. clear E2.
  assert (defaulted h0 h2) as D02 by by eapply defaulted_trans.
  assert (alike h0 h2) as A2 by by apply defaulted_alike.
  (* task proxies *)
  rewrite bind_get_record by done. cbn [heap calls].
  rewrite <- (alike_field _ _ v "taskProxies" A2) by done.
  rewrite (for_of_run _ _ (elements h0 (field h0 v "taskProxies")))
    by (simpl; by rewrite <- (alike_iterate _ _ _ A2)).
  run_loop h0 (task_proxy_step h0) (forallb_Forall _ _ Wt)
    as (h3 & E3 & D3); [exact A2|].
  exists h3. rewrite E3. cbn [heap calls]. unfold expected_calls.
  rewrite !concat_map_singleton, <- !app_assoc.
  split; [reflexivity|]. by eapply defaulted_trans.
Qed.

Lemma bind_normal {A B} (m : js A) (f : A → js B) σ b σ' :
  defaulting m → (m ≫= f) σ = (Normal b, σ') →
  ∃ a σ1, m σ = (Normal a, σ1) ∧ defaulted (heap σ) (heap σ1)
        ∧ f a σ1 = (Normal b, σ').
Proof.
  intros Hm. specialize (Hm σ). rewrite run_bind.
  destruct (m σ) as [[a|e] σ1]; [|discriminate]. eauto.
Qed.

Lemma each_visits body (xs : list val) x σ σ' :
  (∀ y, defaulting (body y)) →
  each body xs σ = (Normal tt, σ') → x ∈ xs →
  ∃ σ1 σ2, body x σ1 = (Normal tt, σ2)
         ∧ defaulted (heap σ) (heap σ1) ∧ defaulted (heap σ2) (heap σ').
Proof.
  intros Hb. revert σ. induction xs as [|y xs IH]; intros σ H Hx.
  - by apply elem_of_nil in Hx.
  - simpl in H. apply bind_normal in H as (u & σa & Hy & Da & H); [|done].
    destruct u.
    apply elem_of_cons in Hx as [->|Hx].
    + exists σ, σa. split; [done|]. split; [apply defaulted_refl|].
      pose proof (defaulting_each body xs Hb σa) as D. by rewrite H in D.
    + destruct (IH σa H Hx) as (σ1 & σ2 & E & D1 & D2).
      exists σ1, σ2. split; [done|]. split; [|done].
      by eapply defaulted_trans.
Qed.

Lemma populate_defaults_ghost tree v l σ σ' :
  populateTreeFromGraphQLData tree v σ = (Normal tt, σ') →
  VRef l ∈ elements (heap σ) (field (heap σ) v "taskProxies") →
  truthy (read (heap σ) l "state") = false →
  read (heap σ') l "state" = VStr "".
Proof.
  intros H Hl Hs. revert H.
  unfold populateTreeFromGraphQLData, or_else, negation.
  autorewrite with js.
  destruct (tree_truthy tree); simpl; [|discriminate].
  autorewrite with js.
  destruct (truthy v) eqn:Tv; simpl; [|discriminate].
  autorewrite with js.
  destruct (containsTreeData_run v σ) as (r & Hrun & Hr).
  rewrite run_bind, Hrun.
  destruct Hr as [[Hd ->]|[_ Hr]];
    [|autorewrite with js; rewrite Hr; discriminate].
  autorewrite with js. simpl.
  assert (is_nullish v = false) as Nv by (by destruct v).
  intros H.
  apply bind_normal in H as (n & σ1 & _ & D1 & H);
    [|apply defaulting_createWorkflowNode].
  apply bind_normal in H as (? & σ2 & _ & D2 & H);
    [|apply defaulting_invoke].
  rewrite bind_get_record in H by done.
  apply bind_normal in H as (? & σ3 & _ & D3 & H);
    [|repeat defaulting_step].
  rewrite bind_get_record in H by done.
  apply bind_normal in H as (? & σ4 & _ & D4 & H);
    [|repeat defaulting_step].
  rewrite bind_get_record in H by done.
  assert (defaulted (heap σ) (heap σ4)) as D
    by (do 3 (eapply defaulted_trans; [|eassumption]); done).
  clear D1 D2 D3 D4.
  pose proof (defaulted_alike _ _ D) as A.
  rewrite <- (alike_field _ _ v "taskProxies" A) in H by done.
  unfold for_of in H. rewrite <- (alike_iterate _ _ _ A) in H.
  unfold elements in Hl.
  destruct (iterate (heap σ) (field (heap σ) v "taskProxies")) as [xs|];
    [|discriminate].
  simpl in Hl.
  eapply each_visits in H as (σa & σb & E & Da & Db); [|intros ?|exact Hl].
  2:{ repeat defaulting_step. }
  cbv beta in E.
  apply bind_normal in E as (n' & σc & Ec & _ & E);
    [|apply defaulting_createTaskProxyNode].
  rewrite createTaskProxyNode_run in Ec. injection Ec as _ <-.
  match type of E with ?m _ = _ => assert (defaulting m) as Dm end.
  { repeat defaulting_step. }
  specialize (Dm (Machine (default_state (heap σa) l) (calls σa))).
  rewrite E in Dm. cbn [heap snd] in Dm.
  eapply defaulted_state_kept; [exact Db|].
  eapply defaulted_state_kept; [exact Dm|].
  rewrite default_state_read, decide_True; [done|].
  repeat split. rewrite (defaulted_falsy _ _ l (defaulted_trans _ _ _ D Da)).
  exact Hs.
Qed.

Lemma Forall_forallb {A} (f : A → bool) (xs : list A) :
  Forall (λ x, f x = true) xs → forallb f xs = true.
Proof.
  induction 1 as [|x xs Hx _ IH]; simpl; [done|]. by rewrite Hx, IH.
Qed.

(** From a loop that returned: every element's iteration returned, from a
    heap that differs from the loop's initial heap by state defaulting. *)
Lemma each_returned body (P : val → Prop) (xs : list val) h0 σ σ' :
  (∀ y, defaulting (body y)) →
  (∀ x σ1 σ2, alike h0 (heap σ1) → body x σ1 = (Normal tt, σ2) → P x) →
  alike h0 (heap σ) →
  each body xs σ = (Normal tt, σ') → Forall P xs.
Proof.
  intros Hb HP Hσ H. apply Forall_forall. intros x Hx.
  destruct (each_visits body xs x σ σ' Hb H Hx) as (σ1 & σ2 & E & D & _).
  apply (HP x σ1 σ2); [|done].
  eapply alike_trans; [exact Hσ|by apply defaulted_alike].
Qed.

Lemma for_of_returned v body xs σ σ' :
  for_of v body σ = (Normal tt, σ') → iterate (heap σ) v = Some xs →
  each body xs σ = (Normal tt, σ').
Proof. intros H E. by rewrite (for_of_run _ _ _ _ E) in H. Qed.

Lemma cycle_point_returned x σ1 σ2 :
  (createCyclePointNode x ≫= λ n, invoke CylcTree addCyclePoint n) σ1
  = (Normal tt, σ2) → readable x = true.
Proof.
  rewrite run_bind, createCyclePointNode_run. unfold readable.
  by destruct (is_nullish x).
Qed.

Lemma family_proxy_returned x σ1 σ2 :
  (createFamilyProxyNode x ≫= λ n, invoke CylcTree addFamilyProxy n) σ1
  = (Normal tt, σ2) → readable x = true.
Proof.
  rewrite run_bind, createFamilyProxyNode_run. unfold readable.
  by destruct (is_nullish x).
Qed.

Lemma job_returned h0 owner x σ1 σ2 :
  is_nullish owner = false → alike h0 (heap σ1) →
  (get owner "latestMessage"
   ≫= λ latestMessage, createJobNode x latestMessage
   ≫= λ n, invoke CylcTree addJob n) σ1 = (Normal tt, σ2) →
  printable_job h0 x = true.
Proof.
  intros Ho A. rewrite bind_get_record by done.
  rewrite run_bind, createJobNode_run. unfold printable_job, readable.
  destruct (is_nullish x); [discriminate|].
  rewrite <- (alike_field _ _ x "id" A) by done.
  destruct (ToString (field h0 x "id")); [|discriminate].
  done.
Qed.

Lemma task_proxy_returned h0 x σ1 σ2 :
  alike h0 (heap σ1) →
  (taskProxyNode ← createTaskProxyNode x;
   invoke CylcTree addTaskProxy taskProxyNode;;
   jobs ← get x "jobs";
   if truthy jobs then
     jobs ← get x "jobs";
     for_of jobs (λ job,
       latestMessage ← get x "latestMessage";
       jobNode ← createJobNode job latestMessage;
       invoke CylcTree addJob jobNode)
   else ret tt) σ1 = (Normal tt, σ2) →
  well_formed_task_proxy h0 x = true.
Proof.
  intros A. rewrite run_bind, createTaskProxyNode_run.
  destruct x as [| | | | |l]; try discriminate.
  rewrite bind_invoke.
  set (h1 := default_state (heap σ1) l).
  assert (alike h0 h1) as A1.
  { eapply alike_trans; [exact A|].
    apply defaulted_alike, defaulted_default_state. }
  rewrite (bind_get_ref l "jobs"). cbn [heap calls].
  rewrite <- (alike_read _ _ l "jobs" A1) by done.
  unfold well_formed_task_proxy. cbn [field is_ref andb].
  destruct (truthy (read h0 l "jobs")) eqn:Tj; [|done].
  rewrite (bind_get_ref l "jobs"). cbn [heap calls].
  rewrite <- (alike_read _ _ l "jobs" A1) by done.
  unfold for_of. cbn [heap calls].
  rewrite <- (alike_iterate _ _ _ A1).
  destruct (iterate h0 (read h0 l "jobs")) as [jobs|]; [|discriminate].
  intros H. simpl. apply Forall_forallb.
  eapply (each_returned _ _ jobs h0); [| | |exact H].
  - intros y. repeat defaulting_step.
  - intros job σa σb Aa. by apply job_returned.
  - exact A1.
Qed.

Lemma populate_returned_well_formed v σ σ' :
  populateTreeFromGraphQLData CylcTree v σ = (Normal tt, σ') →
  has_tree_data (heap σ) v ∧ well_formed (heap σ) v = true.
Proof.
  unfold populateTreeFromGraphQLData, or_else, negation.
  autorewrite with js. simpl. autorewrite with js.
  destruct (truthy v) eqn:Tv; simpl; [|discriminate].
  autorewrite with js.
  destruct (containsTreeData_run v σ) as (r & Hrun & Hr).
  rewrite run_bind, Hrun.
  destruct Hr as [[Hd ->]|[_ Hr]];
    [|autorewrite with js; rewrite Hr; discriminate].
  autorewrite with js. simpl.
  assert (is_nullish v = false) as Nv by (by destruct v).
  intros H. split; [exact Hd|].
  destruct Hd as (_ & _ & Hc & Hf & Ht).
  pose proof Hc as (_ & _ & Ic)%array_field_elements.
  pose proof Hf as (_ & _ & If)%array_field_elements.
  pose proof Ht as (_ & _ & It)%array_field_elements.
  set (h0 := heap σ) in *.
  apply bind_normal in H as (n & σ1 & _ & D1 & H);
    [|apply defaulting_createWorkflowNode].
  apply bind_normal in H as (? & σ2 & _ & D2 & H);
    [|apply defaulting_invoke].
  assert (alike h0 (heap σ2)) as A2
    by (by eapply defaulted_alike, defaulted_trans).
  rewrite bind_get_record in H by done.
  rewrite <- (alike_field _ _ v "cyclePoints" A2) in H by done.
  apply bind_normal in H as ([] & σ3 & L1 & D3 & H);
    [|repeat defaulting_step].
  assert (alike h0 (heap σ3)) as A3
    by (eapply alike_trans; [exact A2|by apply defaulted_alike]).
  rewrite bind_get_record in H by done.
  rewrite <- (alike_field _ _ v "familyProxies" A3) in H by done.
  apply bind_normal in H as ([] & σ4 & L2 & D4 & H);
    [|repeat defaulting_step].
  assert (alike h0 (heap σ4)) as A4
    by (eapply alike_trans; [exact A3|by apply defaulted_alike]).
  rewrite bind_get_record in H by done.
  rewrite <- (alike_field _ _ v "taskProxies" A4) in H by done.
  eapply for_of_returned in L1; [|by rewrite <- (alike_iterate _ _ _ A2)].
  eapply for_of_returned in L2; [|by rewrite <- (alike_iterate _ _ _ A3)].
  eapply for_of_returned in H; [|by rewrite <- (alike_iterate _ _ _ A4)].
  unfold well_formed. rewrite !andb_true_iff. repeat split.
  - apply Forall_forallb.
    eapply (each_returned _ _ _ h0); [| |exact A2|exact L1].
    + intros y. repeat defaulting_step.
    + intros e σa σb _. apply cycle_point_returned.
  - apply Forall_forallb.
    eapply (each_returned _ _ _ h0); [| |exact A3|exact L2].
    + intros y. repeat defaulting_step.
    + intros e σa σb _. apply family_proxy_returned.
  - apply Forall_forallb.
    eapply (each_returned _ _ _ h0); [| |exact A4|exact H].
    + intros y. repeat defaulting_step.
    + intros e σa σb Aa. by apply (task_proxy_returned h0 e σa σb).
Qed.
(** The orchestrator returns normally on exactly the records that the
    validator accepts and that are well formed. *)
Lemma populate_returns_iff v σ :
  (populateTreeFromGraphQLData CylcTree v σ).1 = Normal tt
  ↔ (containsTreeData v σ).1 = Normal (VBool true)
    ∧ well_formed (heap σ) v = true.
Proof.
  rewrite accepted_has_tree_data. split.
  - destruct (populateTreeFromGraphQLData CylcTree v σ) as [r σ'] eqn:E.
    simpl. intros ->. by apply populate_returned_well_formed in E.
  - intros [Hd Hw]. by destruct (populate_run v σ Hd Hw) as (h' & -> & _).
Qed.

Lemma count_calls_app m (xs ys : list call) :
  count_calls m (xs ++ ys) = count_calls m xs + count_calls m ys.
Proof. unfold count_calls. by rewrite filter_app, length_app. Qed.

Lemma count_calls_cons m c (xs : list call) :
  count_calls m (c :: xs)
  = (if decide (callee c = m) then 1 else 0) + count_calls m xs.
Proof.
  unfold count_calls. rewrite filter_cons. by case_decide.
Qed.

Lemma count_calls_map {A} m m' (f : A → Node.t) (xs : list A) :
  count_calls m (map (λ x, Call m' (f x)) xs)
  = if decide (m' = m) then length xs else 0.
Proof.
  induction xs as [|x xs IH]; simpl.
  - by case_decide.
  - rewrite count_calls_cons, IH. simpl. by case_decide.
Qed.

Lemma count_calls_task_proxies m h (tps : list val) :
  count_calls m (concat (map (task_proxy_calls h) tps))
  = (if decide (addTaskProxy = m) then length tps else 0)
    + (if decide (addJob = m)
       then sum_list (map (λ tp, length (jobs_of h tp)) tps) else 0).
Proof.
  induction tps as [|tp tps IH]; cbn [concat map].
  - by repeat case_decide.
  - rewrite count_calls_app, IH. unfold task_proxy_calls.
    rewrite count_calls_cons, count_calls_map. simpl.
    repeat case_decide; try congruence; lia.
Qed.

Lemma expected_calls_counts h v :
  count_calls setWorkflow (expected_calls h v) = 1
  ∧ count_calls addCyclePoint (expected_calls h v)
    = length (elements h (field h v "cyclePoints"))
  ∧ count_calls addFamilyProxy (expected_calls h v)
    = length (elements h (field h v "familyProxies"))
  ∧ count_calls addTaskProxy (expected_calls h v)
    = length (elements h (field h v "taskProxies"))
  ∧ count_calls addJob (expected_calls h v)
    = sum_list (map (λ tp, length (jobs_of h tp))
                  (elements h (field h v "taskProxies"))).
Proof.
  unfold expected_calls.
  repeat split;
    rewrite !count_calls_app, count_calls_cons, !count_calls_map,
      count_calls_task_proxies; simpl;
    repeat (case_decide; try congruence); unfold count_calls; simpl; lia.
Qed.

(** C1 (amended). On a workflow record that the validator accepts and
    whose collections hold usable records (cycle points and family
    proxies that are neither [null] nor [undefined], task proxies that
    are objects, each with a [jobs] field that is falsy or a sequence of
    jobs with printable ids), the orchestrator returns normally and the
    tree receives, after what it had received before, exactly
    [expected_calls]: [setWorkflow] once, then one [addCyclePoint] per
    cycle point in input order, then one [addFamilyProxy] per family
    proxy in input order, then for each task proxy in input order one
    [addTaskProxy] immediately followed by one [addJob] per job of that
    task proxy in input order. *)
Theorem populate_calls_in_order v σ :
  (containsTreeData v σ).1 = Normal (VBool true) →
  well_formed (heap σ) v = true →
  let h := heap σ in
  let run := populateTreeFromGraphQLData CylcTree v σ in
  run.1 = Normal tt
  ∧ calls run.2 = (calls σ ++ expected_calls h v)%list
  ∧ count_calls setWorkflow (expected_calls h v) = 1
  ∧ count_calls addCyclePoint (expected_calls h v)
    = length (elements h (field h v "cyclePoints"))
  ∧ count_calls addFamilyProxy (expected_calls h v)
    = length (elements h (field h v "familyProxies"))
  ∧ count_calls addTaskProxy (expected_calls h v)
    = length (elements h (field h v "taskProxies"))
  ∧ count_calls addJob (expected_calls h v)
    = sum_list (map (λ tp, length (jobs_of h tp))
                  (elements h (field h v "taskProxies"))).
Proof.
  intros Hd%accepted_has_tree_data Hw h run.
  destruct (populate_run v σ Hd Hw) as (h' & E & _).
  subst run. rewrite E. simpl.
  split; [done|]. split; [done|]. apply expected_calls_counts.
Qed.

(** C5. A task-proxy record without a [state] property has [state = '']
    once [createTaskProxyNode] has run on it, and once a population over a
    workflow whose [taskProxies] contain it has returned; the property is
    set on the record in the shared heap, and the node refers to that
    same record. *)
Theorem ghost_state_defaulted :
  (∀ l σ, props (cell_at (heap σ) l) !! "state" = None →
     (createTaskProxyNode (VRef l) σ).1
       = Normal (task_proxy_node (heap σ) (VRef l))
     ∧ Node.node (task_proxy_node (heap σ) (VRef l)) = Shared (VRef l)
     ∧ props (cell_at (heap (createTaskProxyNode (VRef l) σ).2) l) !! "state"
       = Some (VStr ""))
  ∧ (∀ tree v l σ σ',
     populateTreeFromGraphQLData tree v σ = (Normal tt, σ') →
     VRef l ∈ elements (heap σ) (field (heap σ) v "taskProxies") →
     props (cell_at (heap σ) l) !! "state" = None →
     props (cell_at (heap σ') l) !! "state" = Some (VStr "")).
Proof.
  assert (∀ h l, props (cell_at h l) !! "state" = None →
                 truthy (read h l "state") = false) as Hfalsy.
  { intros h l E. unfold read. by rewrite E. }
  split.
  - intros l σ E. rewrite createTaskProxyNode_run. simpl.
    split; [done|]. split; [done|]. by apply default_state_falsy, Hfalsy.
  - intros tree v l σ σ' Hrun Hl E.
    pose proof (populate_defaults_ghost tree v l σ σ' Hrun Hl
                  (Hfalsy _ _ E)) as R.
    unfold read in R.
    destruct (props (cell_at (heap σ') l) !! "state"); simpl in R;
      [by subst|discriminate].
Qed.

Lemma populate_adds_job v σ tp job :
  has_tree_data (heap σ) v → well_formed (heap σ) v = true →
  tp ∈ elements (heap σ) (field (heap σ) v "taskProxies") →
  job ∈ jobs_of (heap σ) tp →
  Call addJob (job_node (heap σ) (field (heap σ) tp "latestMessage") job)
  ∈ calls (populateTreeFromGraphQLData CylcTree v σ).2.
Proof.
  intros Hd Hw Htp Hjob.
  destruct (populate_run v σ Hd Hw) as (h' & -> & _). simpl.
  unfold expected_calls. rewrite !elem_of_app. do 4 right.
  apply list_elem_of_In, in_concat.
  exists (task_proxy_calls (heap σ) tp). split.
  - apply in_map, list_elem_of_In, Htp.
  - unfold task_proxy_calls. right.
    apply (in_map (λ job, Call addJob (job_node _ _ job))), list_elem_of_In,
      Hjob.
Qed.

(** C6 (amended). A job node has exactly one child; the child has type
    [job-details], the job's id printed and followed by [-details] as its
    id, size 32 times the 7 displayed properties, and is closed.  The job
    node's [latestMessage] is the second argument of the factory, or the
    empty string when that argument is [undefined]; the orchestrator
    passes the owning task proxy's [latestMessage], never a property of
    the job. *)
Theorem job_node_shape :
  (∀ v message σ n σ',
     createJobNode v message σ = (Normal n, σ') →
     ∃ d, Node.children n = [d]
        ∧ Node.type d = "job-details"
        ∧ (∃ s, ToString (field (heap σ) v "id") = Some s
              ∧ Node.id d = VStr (s ++ "-details"))
        ∧ (∀ s, field (heap σ) v "id" = VStr s →
             Node.id d = VStr (s ++ "-details"))
        ∧ Node.size d
          = Some (32 * Z.of_nat (length JOB_DETAIL_NODE_PROPERTIES))%Z
        ∧ length JOB_DETAIL_NODE_PROPERTIES = 7
        ∧ Node.state d = Some (ViewState false)
        ∧ Node.latestMessage n
          = Some (if is_undefined message then VStr "" else message))
  ∧ (∀ v σ tp job,
     (containsTreeData v σ).1 = Normal (VBool true) →
     well_formed (heap σ) v = true →
     tp ∈ elements (heap σ) (field (heap σ) v "taskProxies") →
     job ∈ jobs_of (heap σ) tp →
     let message := field (heap σ) tp "latestMessage" in
     Call addJob (job_node (heap σ) message job)
     ∈ calls (populateTreeFromGraphQLData CylcTree v σ).2
     ∧ Node.latestMessage (job_node (heap σ) message job)
       = Some (if is_undefined message then VStr "" else message)).
Proof.
  split.
  - intros v message σ n σ'.
    rewrite createJobNode_run. destruct (is_nullish v); [discriminate|].
    destruct (ToString (field (heap σ) v "id")) as [s|] eqn:Es;
      [|discriminate].
    intros [= <- _]. exists (job_details_node (heap σ) v). simpl.
    rewrite Es. simpl.
    split; [done|]. split; [done|]. split; [by exists s|].
    split; [|by destruct message].
    intros s' E. rewrite E in Es. simpl in Es. congruence.
  - intros v σ tp job Hd%accepted_has_tree_data Hw Htp Hjob message.
    split; [by apply populate_adds_job|].
    subst message. simpl. by destruct (field (heap σ) tp "latestMessage").
Qed.

(** C4 (amended). The workflow, family-proxy, task-proxy and job nodes
    (and the job-details child) carry in [node] the very value the
    caller supplied, so a property read through the node is, in any later
    heap, the property of the record itself.  The cycle-point node does
    not: its [node] is an object literal of its own, holding the
    cycle-point value twice, as [id] and as [name]. *)
Theorem node_field_sharing v message σ n σ' :
  (createWorkflowNode v σ = (Normal n, σ') → Node.node n = Shared v)
  ∧ (createFamilyProxyNode v σ = (Normal n, σ') → Node.node n = Shared v)
  ∧ (createTaskProxyNode v σ = (Normal n, σ') → Node.node n = Shared v)
  ∧ (createJobNode v message σ = (Normal n, σ') →
     Node.node n = Shared v
     ∧ ∀ d, d ∈ Node.children n → Node.node d = Shared v)
  ∧ (∀ h k, payload_field h (Shared v) k = field h v k)
  ∧ (createCyclePointNode v σ = (Normal n, σ') →
     Node.node n = Literal [("id", field (heap σ) v "cyclePoint");
                            ("name", field (heap σ) v "cyclePoint")]).
Proof.
  rewrite createCyclePointNode_run, createFamilyProxyNode_run,
    createTaskProxyNode_run, createJobNode_run, createWorkflowNode_run.
  repeat apply conj; try (intros h k; reflexivity);
    intros H; destruct v; simpl in H; try discriminate H;
    try (destruct (ToString _); [|discriminate H]);
    injection H as <- _; try reflexivity.
  all: split; [reflexivity|]; simpl; intros d Hd%list_elem_of_singleton;
    by subst.
Qed.

End Population.

(** * The specification's example, and inputs on which the specification
      and the code differ *)

Section Examples.
Local Existing Instance sample_runtime.

(** The example of section 8: the five insertions, in order, and their
    counts. *)
Lemma populate_calls_in_order_sample :
  (containsTreeData (VRef 0) (Machine sample_heap [])).1
  = Normal (VBool true)
  ∧ well_formed sample_heap (VRef 0) = true
  ∧ (populateTreeFromGraphQLData CylcTree (VRef 0)
       (Machine sample_heap [])).1 = Normal tt
  ∧ calls (populateTreeFromGraphQLData CylcTree (VRef 0)
             (Machine sample_heap [])).2
    = expected_calls sample_heap (VRef 0)
  ∧ map callee (expected_calls sample_heap (VRef 0))
    = [setWorkflow; addCyclePoint; addFamilyProxy; addTaskProxy; addJob].
Proof.
  assert (well_formed sample_heap (VRef 0) = true) as Hw
    by (vm_compute; reflexivity).
  assert ((containsTreeData (VRef 0) (Machine sample_heap [])).1
          = Normal (VBool true)) as Hv by (vm_compute; reflexivity).
  pose proof (populate_calls_in_order (VRef 0) (Machine sample_heap [])
                Hv Hw) as (H1 & H2 & _).
  split; [exact Hv|]. split; [exact Hw|].
  split; [exact H1|]. split; [exact H2|]. vm_compute. reflexivity.
Defined.

(** C1, as stated, fails: the validator accepts
    [{cyclePoints:[null], familyProxies:[], taskProxies:[]}], the
    orchestrator calls [setWorkflow] and then raises a [TypeError] on the
    [null] cycle point, so [addCyclePoint] is called zero times for one
    element of [cyclePoints]. *)
Lemma populate_stops_at_null_cycle_point :
  let σ := Machine null_cycle_point_heap [] in
  let run := populateTreeFromGraphQLData CylcTree (VRef 0) σ in
  (containsTreeData (VRef 0) σ).1 = Normal (VBool true)
  ∧ length (elements (heap σ) (field (heap σ) (VRef 0) "cyclePoints")) = 1
  ∧ run.1 = Throw TypeError
  ∧ map callee (calls run.2) = [setWorkflow]
  ∧ count_calls addCyclePoint (calls run.2) = 0.
Proof. vm_compute. repeat split. Qed.

Lemma populate_rejects_invalid_input_sample :
  populateTreeFromGraphQLData (NotATree VNull) (VRef 0)
    (Machine sample_heap [])
  = (Throw (Error "You must provide valid data to populate the tree!"),
     Machine sample_heap [])
  ∧ populateTreeFromGraphQLData CylcTree VNull (Machine sample_heap [])
  = (Throw (Error "You must provide valid data to populate the tree!"),
     Machine sample_heap [])
  ∧ populateTreeFromGraphQLData CylcTree (VRef 6) (Machine sample_heap [])
  = (Throw (Error "You must provide valid data to populate the tree!"),
     Machine sample_heap []).
Proof.
  split; [|split].
  - apply populate_rejects_invalid_input. left. reflexivity.
  - apply populate_rejects_invalid_input. right. left. reflexivity.
  - apply populate_rejects_invalid_input. right. right.
    vm_compute. discriminate.
Defined.

(** C4, as stated, fails for the cycle-point factory: the node's [node]
    is not the record it was given, and a property of the record is not
    seen through it. *)
Lemma cycle_point_node_is_not_the_record :
  let σ := Machine sample_heap [] in
  let n := cycle_point_node sample_heap (VRef 4) in
  createCyclePointNode (VRef 4) σ = (Normal n, σ)
  ∧ Node.node n ≠ Shared (VRef 4)
  ∧ field sample_heap (VRef 4) "cyclePoint" = VStr "2024"
  ∧ payload_field sample_heap (Node.node n) "cyclePoint" = VUndefined.
Proof.
  split; [reflexivity|]. split; [discriminate|].
  split; vm_compute; reflexivity.
Qed.

Lemma node_field_sharing_sample :
  Node.node (family_proxy_node sample_heap (VRef 5)) = Shared (VRef 5)
  ∧ Node.node (cycle_point_node sample_heap (VRef 4))
    = Literal [("id", field sample_heap (VRef 4) "cyclePoint");
               ("name", field sample_heap (VRef 4) "cyclePoint")].
Proof.
  pose proof (node_field_sharing (VRef 5) VUndefined (Machine sample_heap [])
                (family_proxy_node sample_heap (VRef 5))
                (Machine sample_heap [])) as (_ & Hf & _).
  pose proof (node_field_sharing (VRef 4) VUndefined (Machine sample_heap [])
                (cycle_point_node sample_heap (VRef 4))
                (Machine sample_heap [])) as (_ & _ & _ & _ & _ & Hc).
  split; [apply Hf|apply Hc]; reflexivity.
Defined.

Lemma ghost_state_defaulted_sample :
  props (cell_at sample_heap 6) !! "state" = None
  ∧ props (cell_at (heap (populateTreeFromGraphQLData CylcTree (VRef 0)
                            (Machine sample_heap [])).2) 6) !! "state"
    = Some (VStr "").
Proof.
  assert (props (cell_at sample_heap 6) !! "state" = None) as E
    by (vm_compute; reflexivity).
  split; [exact E|].
  destruct ghost_state_defaulted as [_ H].
  eapply (H CylcTree (VRef 0) 6 (Machine sample_heap [])); [|  |exact E].
  - destruct (populateTreeFromGraphQLData CylcTree (VRef 0)
                (Machine sample_heap [])) as [r σ'] eqn:R.
    assert (r = Normal tt) as -> by (apply (f_equal fst) in R; vm_compute in R; congruence).
    reflexivity.
  - vm_compute. apply list_elem_of_singleton. reflexivity.
Defined.

(** C6, as stated, fails on the specification's own example: task proxy
    [t1] has no [latestMessage], and the node of its job [j1] carries the
    empty string, not the task proxy's (undefined) [latestMessage]. *)
Lemma job_message_defaults_to_empty_string :
  let h := sample_heap in
  let message := field h (VRef 6) "latestMessage" in
  let run := populateTreeFromGraphQLData CylcTree (VRef 0) (Machine h []) in
  message = VUndefined
  ∧ last (calls run.2) = Some (Call addJob (job_node h message (VRef 8)))
  ∧ Node.latestMessage (job_node h message (VRef 8)) = Some (VStr "")
  ∧ Node.latestMessage (job_node h message (VRef 8)) ≠ Some message.
Proof.
  split; [vm_compute; reflexivity|]. split; [vm_compute; reflexivity|].
  split; [vm_compute; reflexivity|]. vm_compute. discriminate.
Qed.

Lemma job_node_shape_sample :
  ∃ d, Node.children (job_node sample_heap VUndefined (VRef 8)) = [d]
     ∧ Node.type d = "job-details"
     ∧ Node.id d = VStr "j1-details"
     ∧ Node.size d = Some 224%Z
     ∧ Node.latestMessage (job_node sample_heap VUndefined (VRef 8))
       = Some (VStr "").
Proof.
  destruct job_node_shape as [H _].
  destruct (H (VRef 8) VUndefined (Machine sample_heap [])
              (job_node sample_heap VUndefined (VRef 8))
              (Machine sample_heap []) eq_refl)
    as (d & Hc & Ht & _ & Hi & Hs & _ & _ & Hm).
  exists d. split; [exact Hc|]. split; [exact Ht|].
  split; [exact (Hi "j1" ltac:(vm_compute; reflexivity))|].
  split; [exact Hs|exact Hm].
Defined.

Lemma factory_view_defaults_sample :
  Node.id (cycle_point_node sample_heap (VRef 4))
  = field sample_heap (VRef 4) "cyclePoint"
  ∧ Node.state (cycle_point_node sample_heap (VRef 4))
    = Some (ViewState true)
  ∧ Node.size (workflow_node sample_heap (VRef 0)) = None
  ∧ Node.state (workflow_node sample_heap (VRef 0)) = None.
Proof.
  pose proof (factory_view_defaults (VRef 4) VUndefined
                (Machine sample_heap [])
                (cycle_point_node sample_heap (VRef 4))
                (Machine sample_heap [])) as (Hc & _).
  pose proof (factory_view_defaults (VRef 0) VUndefined
                (Machine sample_heap [])
                (workflow_node sample_heap (VRef 0))
                (Machine sample_heap [])) as (_ & _ & _ & _ & Hw).
  destruct (Hc eq_refl) as [H1 H2]. destruct (Hw eq_refl) as [H3 H4].
  repeat split; assumption.
Defined.

(** A task proxy whose [state] is the number 0 has it replaced by the
    empty string. *)
Lemma createTaskProxyNode_overwrites_zero_state :
  read zero_state_heap 0 "state" = VNum 0%Z
  ∧ props (cell_at (heap (createTaskProxyNode (VRef 0)
                            (Machine zero_state_heap [])).2) 0) !! "state"
    = Some (VStr "").
Proof.
  split; [vm_compute; reflexivity|].
  apply (createTaskProxyNode_overwrites_falsy_state 0
           (Machine zero_state_heap [])).
  vm_compute. reflexivity.
Defined.

End Examples.

(** * Further properties of the orchestrator, the factories, the mock
      service and the router *)

Section Touching.
Context `{RT : Runtime}.
Implicit Types (h : gmap loc cell) (l : loc) (k : string) (v : val)
  (σ : machine) (L : loc → Prop).

Lemma touched_only_refl L h : touched_only L h h.
Proof. intros l. split; [done|]. intros k. by left. Qed.

Lemma touched_only_defaulted L h h' : touched_only L h h' → defaulted h h'.
Proof.
  intros H l. destruct (H l) as [I P]. split; [done|]. intros k.
  destruct (P k) as [E|(-> & _ & T & E)].
  - left. unfold read. by rewrite E.
  - right. repeat split; [done|]. unfold read. by rewrite E.
Qed.

Lemma touched_only_trans L h1 h2 h3 :
  touched_only L h1 h2 → touched_only L h2 h3 → touched_only L h1 h3.
Proof.
  intros H12 H23 l.
  destruct (H12 l) as [I12 P12], (H23 l) as [I23 P23].
  split; [congruence|]. intros k.
  destruct (P23 k) as [E23|(-> & Ll & T2 & E3)].
  - destruct (P12 k) as [E12|(-> & ? & T1 & E2)].
    + left. congruence.
    + right. repeat split; congruence.
  - right. repeat split; [done| |done].
    rewrite <- (defaulted_falsy h1 h2 l (touched_only_defaulted _ _ _ H12)).
    exact T2.
Qed.

Lemma touched_only_default_state L h l :
  L l → touched_only L h (default_state h l).
Proof.
  intros Ll l'. split; [apply default_state_items|]. intros k.
  destruct (decide (l' = l ∧ k = "state")) as [[-> ->]|Hn].
  - destruct (truthy (read h l "state")) eqn:T.
    + left. unfold default_state. by rewrite T.
    + right. repeat split; [done..|]. by apply default_state_falsy.
  - left. apply default_state_props.
    destruct (decide (l' = l)); [right|left]; naive_solver.
Qed.

Lemma touching_pure h0 L {A} (m : js A) :
  (∀ σ, heap (m σ).2 = heap σ) → touching h0 L m.
Proof. intros H σ _. rewrite H. apply touched_only_refl. Qed.

Lemma touching_bind h0 L {A B} (m : js A) (f : A → js B) :
  touching h0 L m → (∀ a, touching h0 L (f a)) → touching h0 L (m ≫= f).
Proof.
  intros Hm Hf σ Hσ. specialize (Hm σ Hσ). rewrite run_bind.
  destruct (m σ) as [[a|e] σ1]; simpl in *; [|done].
  eapply touched_only_trans; [exact Hm|]. apply Hf.
  eapply alike_trans; [exact Hσ|].
  by eapply defaulted_alike, touched_only_defaulted.
Qed.

Lemma touching_get_bind h0 L {B} v k (f : val → js B) :
  k ≠ "state" → touching h0 L (f (field h0 v k)) →
  touching h0 L (get v k ≫= f).
Proof.
  intros Hk Hf σ Hσ. destruct (is_nullish v) eqn:Nv.
  - rewrite run_bind, get_nullish by done. apply touched_only_refl.
  - rewrite bind_get_record by done.
    rewrite <- (alike_field _ _ v k Hσ) by done. by apply Hf.
Qed.

Lemma touching_createTaskProxyNode h0 L v :
  (∀ l, v = VRef l → L l) → touching h0 L (createTaskProxyNode v).
Proof.
  intros HL σ _. rewrite createTaskProxyNode_run.
  destruct v; try apply touched_only_refl.
  simpl. apply touched_only_default_state. by apply HL.
Qed.

Lemma touching_each h0 L body (xs : list val) :
  Forall (λ x, touching h0 L (body x)) xs → touching h0 L (each body xs).
Proof.
  induction 1 as [|x xs Hx _ IH]; simpl.
  - by apply touching_pure.
  - apply touching_bind; [exact Hx|intros _; exact IH].
Qed.

Lemma touching_for_of h0 L v body :
  (∀ xs, iterate h0 v = Some xs → Forall (λ x, touching h0 L (body x)) xs) →
  touching h0 L (for_of v body).
Proof.
  intros Hb σ Hσ. unfold for_of. rewrite <- (alike_iterate _ _ v Hσ).
  destruct (iterate h0 v) as [xs|] eqn:E; [|apply touched_only_refl].
  exact (touching_each h0 L body xs (Hb xs eq_refl) σ Hσ).
Qed.

Lemma touching_for_of_any h0 L v body :
  (∀ x, touching h0 L (body x)) → touching h0 L (for_of v body).
Proof.
  intros Hb. apply touching_for_of. intros xs _.
  apply Forall_forall. intros x _. apply Hb.
Qed.

Lemma heap_createWorkflowNode v σ : heap (createWorkflowNode v σ).2 = heap σ.
Proof. rewrite createWorkflowNode_run. by destruct (is_nullish v). Qed.

Lemma heap_createCyclePointNode v σ :
  heap (createCyclePointNode v σ).2 = heap σ.
Proof. rewrite createCyclePointNode_run. by destruct (is_nullish v). Qed.

Lemma heap_createFamilyProxyNode v σ :
  heap (createFamilyProxyNode v σ).2 = heap σ.
Proof. rewrite createFamilyProxyNode_run. by destruct (is_nullish v). Qed.

Lemma heap_createJobNode v message σ :
  heap (createJobNode v message σ).2 = heap σ.
Proof.
  rewrite createJobNode_run.
  by destruct (is_nullish v); [|destruct (ToString _)].
Qed.

Lemma heap_containsTreeData v σ : heap (containsTreeData v σ).2 = heap σ.
Proof. by destruct (containsTreeData_run v σ) as (r & -> & _). Qed.

Lemma heap_get v k σ : heap (get v k σ).2 = heap σ.
Proof. by destruct v. Qed.

Lemma heap_invoke tree m n σ : heap (invoke tree m n σ).2 = heap σ.
Proof. by destruct tree. Qed.

End Touching.

Ltac touching_step :=
  lazymatch goal with
  | |- touching _ _ (createWorkflowNode _) =>
      apply touching_pure; intros ?; apply heap_createWorkflowNode
  | |- touching _ _ (createCyclePointNode _) =>
      apply touching_pure; intros ?; apply heap_createCyclePointNode
  | |- touching _ _ (createFamilyProxyNode _) =>
      apply touching_pure; intros ?; apply heap_createFamilyProxyNode
  | |- touching _ _ (createJobNode _ _) =>
      apply touching_pure; intros ?; apply heap_createJobNode
  | |- touching _ _ (containsTreeData _) =>
      apply touching_pure; intros ?; apply heap_containsTreeData
  | |- touching _ _ (get _ _) =>
      apply touching_pure; intros ?; apply heap_get
  | |- touching _ _ (invoke _ _ _) =>
      apply touching_pure; intros ?; apply heap_invoke
  | |- touching _ _ (ret _) => apply touching_pure; intros ?; reflexivity
  | |- touching _ _ (throw _) => apply touching_pure; intros ?; reflexivity
  | |- touching _ _ (if ?b then _ else _) => destruct b
  | |- touching _ _ (_ ≫= _) => apply touching_bind; [|intros ?]
  end.

Section Touching2.
Context `{RT : Runtime}.
Implicit Types (h : gmap loc cell) (l : loc) (k : string) (v : val)
  (σ : machine) (L : loc → Prop).

Lemma touching_populate tree v h0 :
  touching h0 (is_task_proxy h0 v) (populateTreeFromGraphQLData tree v).
Proof.
  unfold populateTreeFromGraphQLData, or_else, negation.
  apply touching_bind; [repeat touching_step|intros invalid].
  destruct (truthy invalid); [touching_step|].
  do 3 (apply touching_bind; [touching_step|intros ?]).
  apply touching_bind.
  { apply touching_for_of_any. intros x. repeat touching_step. }
  intros _. apply touching_bind; [touching_step|intros ?].
  apply touching_bind.
  { apply touching_for_of_any. intros x. repeat touching_step. }
  intros _. apply touching_get_bind; [done|].
  apply touching_for_of. intros xs E. apply Forall_forall. intros x Hx.
  apply touching_bind.
  { apply touching_createTaskProxyNode. intros l ->.
    unfold is_task_proxy, elements. by rewrite E. }
  intros n. do 2 (apply touching_bind; [touching_step|intros ?]).
  destruct (truthy _); [|touching_step].
  apply touching_bind; [touching_step|intros ?].
  apply touching_for_of_any. intros job. repeat touching_step.
Qed.

End Touching2.

Section Steady.
Context `{RT : Runtime}.
Implicit Types (h : gmap loc cell) (l : loc) (k : string) (v : val)
  (σ : machine).

Lemma write_same h l k x :
  x ≠ VUndefined → read h l k = x → write h l k x = h.
Proof.
  intros Hx E. unfold read, cell_at in E. unfold write, cell_at.
  destruct (h !! l) as [[p i]|] eqn:El; simpl in *.
  - destruct (p !! k) as [y|] eqn:Ek; simpl in E; [subst y|congruence].
    rewrite (insert_id p k x Ek). by apply insert_id.
  - rewrite lookup_empty in E. simpl in E. congruence.
Qed.

Lemma default_state_settled h l h' :
  defaulted (default_state h l) h' → default_state h' l = h'.
Proof.
  intros D. unfold default_state at 1.
  destruct (truthy (read h' l "state")) eqn:T'; [done|].
  apply write_same; [done|].
  eapply defaulted_state_kept; [exact D|].
  rewrite default_state_read, decide_True; [done|].
  repeat split.
  rewrite (defaulted_falsy _ _ l D) in T'.
  rewrite default_state_read in T'.
  destruct (truthy (read h l "state")) eqn:T; [|reflexivity].
  rewrite decide_False in T' by (intros (_ & _ & ?); discriminate).
  congruence.
Qed.

Lemma steady_pure {A} (m : js A) :
  respectful m → (∀ σ, heap (m σ).2 = heap σ) → steady m.
Proof.
  intros R H. split; [exact R|]. split.
  - intros σ. rewrite H. apply defaulted_refl.
  - intros σ h' _. by rewrite H.
Qed.

Lemma steady_bind {A B} (m : js A) (f : A → js B) :
  steady m → (∀ a, steady (f a)) → steady (m ≫= f).
Proof.
  intros (Rm & Dm & Sm) Hf. split; [|split].
  - apply respectful_bind; [exact Rm|]. intros a. apply Hf.
  - apply defaulting_bind; [exact Dm|]. intros a. apply Hf.
  - intros σ h' D. rewrite run_bind in D. rewrite run_bind.
    pose proof (Dm σ) as D1. pose proof (Sm σ h') as S1.
    assert (alike_machines σ (Machine h' (calls σ)) →
            (m σ).1 = (m (Machine h' (calls σ))).1
            ∧ alike_machines (m σ).2 (m (Machine h' (calls σ))).2) as R1
      by apply Rm.
    destruct (m σ) as [[a|e] σa] eqn:E1; simpl in *.
    + destruct (Hf a) as (_ & Df & Sf).
      assert (defaulted (heap σa) h') as Da.
      { eapply defaulted_trans; [apply (Df σa)|exact D]. }
      specialize (S1 Da).
      destruct R1 as [R1 [_ C1]].
      { split; [|done]. simpl.
        by eapply defaulted_alike, defaulted_trans. }
      destruct (m (Machine h' (calls σ))) as [r2 σ2]; simpl in *.
      subst r2. destruct σ2 as [h2 c2]; simpl in *. subst h2 c2.
      apply (Sf σa h' D).
    + specialize (S1 D).
      destruct R1 as [R1 _].
      { split; [|done]. simpl.
        by eapply defaulted_alike, defaulted_trans. }
      destruct (m (Machine h' (calls σ))) as [r2 σ2]; simpl in *.
      by subst r2.
Qed.

Lemma steady_createTaskProxyNode v : steady (createTaskProxyNode v).
Proof.
  split; [apply respectful_createTaskProxyNode|].
  split; [apply defaulting_createTaskProxyNode|].
  intros σ h'. rewrite !createTaskProxyNode_run.
  destruct v; try done. simpl. apply default_state_settled.
Qed.

Lemma steady_each body (xs : list val) :
  (∀ x, steady (body x)) → steady (each body xs).
Proof.
  intros Hb. induction xs as [|x xs IH]; simpl.
  - apply steady_pure; [apply respectful_ret|done].
  - apply steady_bind; [apply Hb|intros _; exact IH].
Qed.

Lemma steady_for_of v body :
  (∀ x, steady (body x)) → steady (for_of v body).
Proof.
  intros Hb. split; [|split].
  - apply respectful_for_of. intros x. apply Hb.
  - apply defaulting_for_of. intros x. apply Hb.
  - intros σ h' D. unfold for_of in *. simpl.
    assert (defaulted (heap σ) h') as D0.
    { eapply defaulted_trans; [|exact D].
      destruct (iterate (heap σ) v) as [xs|]; [|apply defaulted_refl].
      apply defaulting_each. intros x. apply Hb. }
    rewrite <- (alike_iterate _ _ v (defaulted_alike _ _ D0)).
    destruct (iterate (heap σ) v) as [xs|]; [|done].
    destruct (steady_each body xs Hb) as (_ & _ & S). by apply S.
Qed.

Lemma respectful_createWorkflowNode v : respectful (createWorkflowNode v).
Proof. unfold createWorkflowNode. repeat respectful_step. Qed.

Lemma respectful_createCyclePointNode v :
  respectful (createCyclePointNode v).
Proof. unfold createCyclePointNode. repeat respectful_step. Qed.

Lemma respectful_createFamilyProxyNode v :
  respectful (createFamilyProxyNode v).
Proof. unfold createFamilyProxyNode. repeat respectful_step. Qed.

Lemma respectful_createJobNode v message :
  respectful (createJobNode v message).
Proof. unfold createJobNode. repeat respectful_step. Qed.

Lemma respectful_containsTreeData v : respectful (containsTreeData v).
Proof. unfold containsTreeData, and_then. repeat respectful_step. Qed.

End Steady.

Ltac steady_step :=
  lazymatch goal with
  | |- steady (createTaskProxyNode _) => apply steady_createTaskProxyNode
  | |- steady (createWorkflowNode _) =>
      apply steady_pure;
      [apply respectful_createWorkflowNode
      |intros ?; apply heap_createWorkflowNode]
  | |- steady (createCyclePointNode _) =>
      apply steady_pure;
      [apply respectful_createCyclePointNode
      |intros ?; apply heap_createCyclePointNode]
  | |- steady (createFamilyProxyNode _) =>
      apply steady_pure;
      [apply respectful_createFamilyProxyNode
      |intros ?; apply heap_createFamilyProxyNode]
  | |- steady (createJobNode _ _) =>
      apply steady_pure;
      [apply respectful_createJobNode|intros ?; apply heap_createJobNode]
  | |- steady (containsTreeData _) =>
      apply steady_pure;
      [apply respectful_containsTreeData
      |intros ?; apply heap_containsTreeData]
  | |- steady (get _ _) =>
      apply steady_pure;
      [apply respectful_get; discriminate|intros ?; apply heap_get]
  | |- steady (invoke _ _ _) =>
      apply steady_pure; [apply respectful_invoke|intros ?; apply heap_invoke]
  | |- steady (ret _) =>
      apply steady_pure; [apply respectful_ret|intros ?; reflexivity]
  | |- steady (throw _) =>
      apply steady_pure; [apply respectful_throw|intros ?; reflexivity]
  | |- steady (for_of _ _) => apply steady_for_of; intros ?
  | |- steady (if ?b then _ else _) => destruct b
  | |- steady (_ ≫= _) => apply steady_bind; [|intros ?]
  end.

Section Steady2.
Context `{RT : Runtime}.

Lemma steady_populate tree v : steady (populateTreeFromGraphQLData tree v).
Proof.
  unfold populateTreeFromGraphQLData, or_else, negation.
  repeat steady_step.
Qed.

End Steady2.

Section Orderly.
Context `{RT : Runtime}.
Implicit Types (h : gmap loc cell) (l : loc) (k : string) (v : val)
  (σ : machine).

Lemma orderly_quiet {A} (m : js A) :
  (∀ σ, calls (m σ).2 = calls σ) →
  (∀ σ e, (m σ).1 = Throw e → e = TypeError) → orderly m.
Proof.
  intros Hc He σ. split; [|apply He].
  exists []. by rewrite Hc, app_nil_r.
Qed.

Lemma orderly_ret {A} (a : A) : orderly (ret a).
Proof. apply orderly_quiet; [done|]. intros σ e. discriminate. Qed.

Lemma orderly_get v k : orderly (get v k).
Proof.
  apply orderly_quiet; intros σ; destruct v; simpl; try done.
  all: intros e; congruence.
Qed.

Lemma orderly_assign v k x : orderly (assign v k x).
Proof.
  apply orderly_quiet; intros σ; destruct v; simpl; try done.
  all: intros e; congruence.
Qed.

Lemma orderly_details_id v : orderly (details_id v).
Proof.
  apply orderly_quiet; intros σ; unfold details_id;
    destruct (ToString v); simpl; try done.
  all: intros e; congruence.
Qed.

Lemma orderly_invoke tree m n : orderly (invoke tree m n).
Proof.
  intros σ. destruct tree; simpl.
  - split; [by eexists|]. discriminate.
  - split; [exists []; by rewrite app_nil_r|]. congruence.
Qed.

Lemma orderly_bind {A B} (m : js A) (f : A → js B) :
  orderly m → (∀ a, orderly (f a)) → orderly (m ≫= f).
Proof.
  intros Hm Hf σ. destruct (Hm σ) as [[new1 C1] E1]. rewrite run_bind.
  destruct (m σ) as [[a|e] σ1]; simpl in *.
  - destruct (Hf a σ1) as [[new2 C2] E2]. split; [|exact E2].
    exists (new1 ++ new2)%list. by rewrite C2, C1, app_assoc.
  - split; [by exists new1|]. intros e' [= <-]. by apply E1.
Qed.

Lemma orderly_each body (xs : list val) :
  (∀ x, orderly (body x)) → orderly (each body xs).
Proof.
  intros Hb. induction xs as [|x xs IH]; simpl.
  - apply orderly_ret.
  - apply orderly_bind; [apply Hb|intros _; exact IH].
Qed.

Lemma orderly_for_of v body :
  (∀ x, orderly (body x)) → orderly (for_of v body).
Proof.
  intros Hb σ. unfold for_of.
  destruct (iterate (heap σ) v) as [xs|]; [by apply orderly_each|].
  simpl. split; [exists []; by rewrite app_nil_r|]. congruence.
Qed.

End Orderly.

Ltac orderly_step :=
  lazymatch goal with
  | |- orderly (get _ _) => apply orderly_get
  | |- orderly (assign _ _ _) => apply orderly_assign
  | |- orderly (details_id _) => apply orderly_details_id
  | |- orderly (invoke _ _ _) => apply orderly_invoke
  | |- orderly (ret _) => apply orderly_ret
  | |- orderly (for_of _ _) => apply orderly_for_of; intros ?
  | |- orderly (if ?b then _ else _) => destruct b
  | |- orderly (_ ≫= _) => apply orderly_bind; [|intros ?]
  end.

Section MoreOrchestrator.
Context `{RT : Runtime}.
Implicit Types (h : gmap loc cell) (l : loc) (k : string) (v : val)
  (σ : machine).

Lemma accepted_record v σ :
  (containsTreeData v σ).1 = Normal (VBool true) →
  containsTreeData v σ = (Normal (VBool true), σ)
  ∧ truthy v = true ∧ is_nullish v = false.
Proof.
  intros H. pose proof H as Hd%accepted_has_tree_data.
  destruct (containsTreeData_run v σ) as (r & E & _).
  rewrite E in H. simpl in H. injection H as ->. split; [done|].
  destruct Hd as (_ & _ & (l & a & -> & _) & _). done.
Qed.

(** X1. On a [CylcTree], the orchestrator returns normally exactly when
    the validator accepts the workflow and its collections are well
    formed; on every other accepted workflow it fails. *)
Theorem populate_returns_exactly_on_well_formed v σ :
  (populateTreeFromGraphQLData CylcTree v σ).1 = Normal tt
  ↔ (containsTreeData v σ).1 = Normal (VBool true)
    ∧ well_formed (heap σ) v = true.
Proof. apply populate_returns_iff. Qed.

(** X2. A first argument that is truthy but is not a tree passes the
    validation; with an accepted workflow the call then ends in a
    [TypeError] at [tree.setWorkflow], before anything has been inserted
    or written. *)
Theorem populate_without_a_tree x v σ :
  truthy x = true →
  (containsTreeData v σ).1 = Normal (VBool true) →
  populateTreeFromGraphQLData (NotATree x) v σ = (Throw TypeError, σ).
Proof.
  intros Tx (Hrun & Tv & Nv)%accepted_record.
  unfold populateTreeFromGraphQLData, or_else, negation.
  autorewrite with js. simpl. rewrite Tx. simpl.
  autorewrite with js. rewrite Tv. simpl. autorewrite with js.
  rewrite run_bind, Hrun. autorewrite with js. simpl.
  rewrite run_bind, createWorkflowNode_run, Nv. reflexivity.
Qed.

(** X3. Once the validator has accepted the workflow, the root node is
    inserted before anything else is looked at: the first new call is
    [setWorkflow] with the workflow node, earlier calls are kept, and the
    run either returns or raises a [TypeError] (never the validation
    error).  A workflow that is not well formed raises the [TypeError]
    with the root, and whatever was inserted before the bad element,
    already in the tree. *)
Theorem populate_inserts_root_first v σ :
  (containsTreeData v σ).1 = Normal (VBool true) →
  let run := populateTreeFromGraphQLData CylcTree v σ in
  (∃ rest, calls run.2
           = (calls σ ++ Call setWorkflow (workflow_node (heap σ) v) :: rest)%list)
  ∧ (run.1 = Normal tt ∨ run.1 = Throw TypeError)
  ∧ (well_formed (heap σ) v = false → run.1 = Throw TypeError).
Proof.
  intros Ha run.
  assert ((∃ rest, calls run.2
             = (calls σ ++ Call setWorkflow (workflow_node (heap σ) v) :: rest)%list)
          ∧ (run.1 = Normal tt ∨ run.1 = Throw TypeError)) as [H1 H2].
  { subst run. destruct (accepted_record v σ Ha) as (Hrun & Tv & Nv).
    unfold populateTreeFromGraphQLData, or_else, negation.
    autorewrite with js. simpl. autorewrite with js. rewrite Tv. simpl.
    autorewrite with js. rewrite run_bind, Hrun. autorewrite with js. simpl.
    rewrite run_bind, createWorkflowNode_run, Nv, bind_invoke.
    match goal with |- context [?m (Machine ?h ?c)] =>
      assert (orderly m) as Hm; [|destruct (Hm (Machine h c)) as [[new C] E]]
    end.
    { unfold createCyclePointNode, createFamilyProxyNode,
        createTaskProxyNode, createJobNode.
      repeat orderly_step. }
    split.
    - exists new. rewrite C. simpl. by rewrite <- app_assoc.
    - match goal with |- ?r = _ ∨ _ => destruct r as [[]|e] eqn:R end;
        [by left|right]. by rewrite (E e eq_refl). }
  split; [exact H1|]. split; [exact H2|].
  intros Hw. destruct H2 as [H2|H2]; [|exact H2].
  apply populate_returns_iff in H2 as [_ H2]. congruence.
Qed.

(** X4. Whatever the input and the outcome, the orchestrator writes
    nothing but the [state] of objects listed in the workflow's
    [taskProxies]: every array keeps its elements, every other property
    of every object keeps its value or its absence, and a [state] changes
    only from a falsy value to the empty string.  The workflow, the cycle
    points, the family proxies and the jobs are left alone unless they
    are also listed as task proxies. *)
Theorem populate_touches_only_task_proxy_states tree v σ :
  touched_only (is_task_proxy (heap σ) v) (heap σ)
    (heap (populateTreeFromGraphQLData tree v σ).2).
Proof. apply touching_populate, alike_refl. Qed.

(** X5. A second population, from the heap the first one left behind and
    a tree with the same history, changes no record at all: every state
    the first run would default is already defaulted. *)
Theorem repopulation_changes_no_record tree v σ :
  let first := populateTreeFromGraphQLData tree v σ in
  heap (populateTreeFromGraphQLData tree v
          (Machine (heap first.2) (calls σ))).2
  = heap first.2.
Proof.
  intros first. destruct (steady_populate tree v) as (_ & _ & S).
  apply S, defaulted_refl.
Qed.

Lemma has_tree_data_alike h h' v :
  alike h h' → has_tree_data h v → has_tree_data h' v.
Proof.
  intros A (Hu & Hn & Hc & Hf & Ht).
  assert (∀ k, k ≠ "state" → array_field h v k → array_field h' v k) as H.
  { intros k Hk (l & a & -> & E & I). exists l, a. split; [done|].
    assert (read h' l k = VRef a) as R.
    { rewrite <- (alike_read _ _ l k A) by done. unfold read. by rewrite E. }
    unfold read in R. split.
    - destruct (props (cell_at h' l) !! k); simpl in R; congruence.
    - destruct (A a) as [<- _]. exact I. }
  repeat split; try done; by apply H.
Qed.

(** X6. Population never turns an accepted workflow record into a
    rejected one, nor a rejected one into an accepted one: the validator
    gives the same verdict after the run as before it. *)
Theorem population_keeps_the_verdict tree v σ :
  (containsTreeData v (populateTreeFromGraphQLData tree v σ).2).1
  = Normal (VBool true)
  ↔ (containsTreeData v σ).1 = Normal (VBool true).
Proof.
  rewrite !accepted_has_tree_data.
  pose proof (defaulted_alike _ _ (defaulting_populate tree v σ)) as A.
  split; apply has_tree_data_alike; [by apply alike_sym|done].
Qed.

(** X7. A workflow whose three collections are empty arrays is accepted
    and populates the tree with the root alone: one [setWorkflow] call,
    no other call, and no write to the heap. *)
Theorem populate_empty_workflow v σ :
  (containsTreeData v σ).1 = Normal (VBool true) →
  elements (heap σ) (field (heap σ) v "cyclePoints") = [] →
  elements (heap σ) (field (heap σ) v "familyProxies") = [] →
  elements (heap σ) (field (heap σ) v "taskProxies") = [] →
  populateTreeFromGraphQLData CylcTree v σ
  = (Normal tt,
     Machine (heap σ)
       (calls σ ++ [Call setWorkflow (workflow_node (heap σ) v)])).
Proof.
  intros Ha Ec Ef Et. pose proof Ha as Hd%accepted_has_tree_data.
  destruct (accepted_record v σ Ha) as (Hrun & Tv & Nv).
  destruct Hd as (_ & _ & Hc & Hf & Ht).
  apply array_field_elements in Hc as (_ & _ & Ic).
  apply array_field_elements in Hf as (_ & _ & If).
  apply array_field_elements in Ht as (_ & _ & It).
  rewrite Ec in Ic. rewrite Ef in If. rewrite Et in It.
  unfold populateTreeFromGraphQLData, or_else, negation.
  autorewrite with js. simpl. autorewrite with js. rewrite Tv. simpl.
  autorewrite with js. rewrite run_bind, Hrun. autorewrite with js. simpl.
  rewrite run_bind, createWorkflowNode_run, Nv, bind_invoke.
  rewrite bind_get_record by done. cbn [heap calls].
  rewrite run_bind, (for_of_run _ _ []) by exact Ic. simpl.
  rewrite bind_get_record by done. cbn [heap calls].
  rewrite run_bind, (for_of_run _ _ []) by exact If. simpl.
  rewrite bind_get_record by done. cbn [heap calls].
  rewrite (for_of_run _ _ []) by exact It. reflexivity.
Qed.

(** X11. After a population that returned, every object listed in
    [taskProxies] has the state it had if that was truthy, and the empty
    string otherwise. *)
Theorem populate_task_proxy_states tree v l σ σ' :
  populateTreeFromGraphQLData tree v σ = (Normal tt, σ') →
  is_task_proxy (heap σ) v l →
  read (heap σ') l "state"
  = if truthy (read (heap σ) l "state") then read (heap σ) l "state"
    else VStr "".
Proof.
  intros Hrun Hl. destruct (truthy (read (heap σ) l "state")) eqn:T.
  - pose proof (defaulting_populate tree v σ) as D. rewrite Hrun in D.
    destruct (D l) as [_ R].
    destruct (R "state") as [E|(_ & F & _)]; [exact E|congruence].
  - by apply (populate_defaults_ghost tree v l σ σ' Hrun Hl).
Qed.

End MoreOrchestrator.

Section MoreFactories.
Context `{RT : Runtime}.
Implicit Types (h : gmap loc cell) (l : loc) (k : string) (v : val)
  (σ : machine).

(** X8. The validator is not boolean-valued: on [null] and [undefined]
    it returns [false], on any other non-object and on an object without
    a [cyclePoints] property it returns [undefined]; whatever it returns
    other than [true] is falsy. *)
Theorem containsTreeData_rejections σ :
  containsTreeData VUndefined σ = (Normal (VBool false), σ)
  ∧ containsTreeData VNull σ = (Normal (VBool false), σ)
  ∧ (∀ v, is_nullish v = false → is_ref v = false →
       containsTreeData v σ = (Normal VUndefined, σ))
  ∧ (∀ l, props (cell_at (heap σ) l) !! "cyclePoints" = None →
       containsTreeData (VRef l) σ = (Normal VUndefined, σ))
  ∧ (∀ v r, containsTreeData v σ = (Normal r, σ) →
       r = VBool true ∨ truthy r = false).
Proof.
  split; [reflexivity|]. split; [reflexivity|]. split; [|split].
  - intros v Nv Rv. destruct v; try discriminate; reflexivity.
  - intros l E. unfold containsTreeData, and_then.
    do 3 (autorewrite with js; simpl). unfold read. rewrite E. reflexivity.
  - intros v r E.
    destruct (containsTreeData_run v σ) as (r' & E' & [[_ ->]|[_ F]]);
      rewrite E' in E; injection E as <-; [by left|by right].
Qed.

(** X9. On [null] and [undefined] every factory raises a [TypeError] and
    changes nothing.  On any other value that is not an object the
    task-proxy factory raises a [TypeError] as well (it cannot write the
    state), while the workflow, cycle-point, family-proxy and job
    factories return a node whose id is [undefined]. *)
Theorem factories_on_non_objects v message σ :
  (is_nullish v = true →
     createWorkflowNode v σ = (Throw TypeError, σ)
     ∧ createCyclePointNode v σ = (Throw TypeError, σ)
     ∧ createFamilyProxyNode v σ = (Throw TypeError, σ)
     ∧ createTaskProxyNode v σ = (Throw TypeError, σ)
     ∧ createJobNode v message σ = (Throw TypeError, σ))
  ∧ (is_nullish v = false → is_ref v = false →
     createTaskProxyNode v σ = (Throw TypeError, σ)
     ∧ ∃ nw nc nf nj,
         createWorkflowNode v σ = (Normal nw, σ)
         ∧ createCyclePointNode v σ = (Normal nc, σ)
         ∧ createFamilyProxyNode v σ = (Normal nf, σ)
         ∧ createJobNode v message σ = (Normal nj, σ)
         ∧ Node.id nw = VUndefined ∧ Node.id nc = VUndefined
         ∧ Node.id nf = VUndefined ∧ Node.id nj = VUndefined).
Proof.
  rewrite createCyclePointNode_run, createFamilyProxyNode_run,
    createTaskProxyNode_run, createJobNode_run, createWorkflowNode_run.
  split.
  - intros Nv. destruct v; try discriminate Nv; simpl; repeat split.
  - intros Nv Rv. destruct v; try discriminate; simpl;
      (split; [reflexivity|]); do 4 eexists; repeat split.
Qed.

Lemma string_length_append (s t : string) :
  String.length (s ++ t) = String.length s + String.length t.
Proof. induction s as [|c s IH]; simpl; [done|]. by rewrite IH. Qed.

Lemma string_append_neq (s t : string) : t ≠ "" → s ++ t ≠ s.
Proof.
  intros Ht E. apply (f_equal String.length) in E.
  rewrite string_length_append in E. destruct t; [done|]. simpl in E. lia.
Qed.

Lemma string_prepend_neq (c : Ascii.ascii) (s t : string) :
  String c s ++ t ≠ t.
Proof.
  intros E. apply (f_equal String.length) in E.
  rewrite string_length_append in E. simpl in E. lia.
Qed.

Lemma string_append_cancel (s1 s2 t : string) :
  s1 ++ t = s2 ++ t → s1 = s2.
Proof.
  revert s2. induction s1 as [|c1 s1 IH]; intros [|c2 s2] E.
  - done.
  - symmetry in E. by apply string_prepend_neq in E.
  - by apply string_prepend_neq in E.
  - simpl in E. injection E as -> E. f_equal. by apply IH.
Qed.

(** X10. The id of the job-details child never equals the id of its job
    node, and two jobs whose ids are different strings get different
    job-details ids. *)
Theorem job_details_ids_are_distinct :
  (∀ v message σ n σ' d,
     createJobNode v message σ = (Normal n, σ') →
     d ∈ Node.children n → Node.id d ≠ Node.id n)
  ∧ (∀ v1 v2 m1 m2 σ n1 n2 σ1 σ2 s1 s2 d1 d2,
     createJobNode v1 m1 σ = (Normal n1, σ1) →
     createJobNode v2 m2 σ = (Normal n2, σ2) →
     field (heap σ) v1 "id" = VStr s1 →
     field (heap σ) v2 "id" = VStr s2 → s1 ≠ s2 →
     d1 ∈ Node.children n1 → d2 ∈ Node.children n2 →
     Node.id d1 ≠ Node.id d2).
Proof.
  split.
  - intros v message σ n σ' d. rewrite createJobNode_run.
    destruct (is_nullish v); [discriminate|].
    destruct (ToString (field (heap σ) v "id")) as [s|] eqn:Es;
      [|discriminate].
    intros [= <- _] ->%list_elem_of_singleton. simpl. rewrite Es. simpl.
    destruct (field (heap σ) v "id") as [| | | |s'|]; try discriminate.
    simpl in Es. injection Es as ->. intros [= E].
    by apply (string_append_neq s "-details").
  - intros v1 v2 m1 m2 σ n1 n2 σ1 σ2 s1 s2 d1 d2.
    rewrite !createJobNode_run.
    destruct (is_nullish v1); [discriminate|].
    destruct (is_nullish v2); [discriminate|].
    intros H1 H2 E1 E2 Hs. rewrite E1 in H1. rewrite E2 in H2.
    simpl in H1, H2. injection H1 as <- _. injection H2 as <- _.
    intros ->%list_elem_of_singleton ->%list_elem_of_singleton.
    simpl. rewrite E1, E2. simpl. intros [= E].
    by apply Hs, (string_append_cancel s1 s2 "-details").
Qed.

End MoreFactories.

Section Unsubscribing.
Context `{RT : Runtime}.
Variable number_equals : number → number → bool.
Implicit Types (h : gmap loc cell) (l a t : loc) (k : string) (v x y : val)
  (σ : machine) (xs : list val).


Lemma indexOf_from_absent xs x i :
  (∀ z, z ∈ xs → strict_equals number_equals x z = false) →
  indexOf_from number_equals xs x i = (-1)%Z.
Proof.
  revert i. induction xs as [|y xs IH]; intros i H; simpl; [done|].
  rewrite (H y) by left. apply IH. intros z Hz. apply H. by right.
Qed.

Lemma indexOf_from_first pre y post x i :
  (∀ z, z ∈ pre → strict_equals number_equals x z = false) →
  strict_equals number_equals x y = true →
  indexOf_from number_equals (pre ++ y :: post) x i
  = (i + Z.of_nat (length pre))%Z.
Proof.
  revert i. induction pre as [|z pre IH]; intros i H Hy; simpl.
  - rewrite Hy. lia.
  - rewrite (H z) by left. rewrite IH; [lia| |done].
    intros z' Hz'. apply H. by right.
Qed.

Lemma Array_splice_at pre y post :
  Array_splice (pre ++ y :: post) (Z.of_nat (length pre)) 1
  = (pre ++ post)%list.
Proof.
  unfold Array_splice. rewrite length_app. cbn [length].
  destruct (Z.ltb_spec (Z.of_nat (length pre)) 0) as [?|_]; [lia|].
  match goal with
  | |- (take ?i _ ++ drop ?j _)%list = _ =>
      replace i with (length pre) by lia;
      replace j with (length pre + 1) by lia
  end.
  by rewrite take_app_length, drop_app_add.
Qed.

Lemma Array_splice_last xs :
  Array_splice xs (-1) 1 = take (length xs - 1) xs.
Proof.
  unfold Array_splice. change (-1 <? 0)%Z with true. cbv iota.
  match goal with
  | |- (take ?i _ ++ drop ?j _)%list = _ =>
      replace i with (length xs - 1) by lia;
      replace j with (length xs) by lia
  end.
  by rewrite drop_all, app_nil_r.
Qed.

Lemma cell_at_store_items h a xs l :
  cell_at (store_items h a xs) l
  = if decide (a = l) then Cell (props (cell_at h a)) (Some xs)
    else cell_at h l.
Proof.
  unfold store_items, cell_at at 1. rewrite lookup_insert.
  by destruct (decide (a = l)).
Qed.

Lemma unsubscribe_run t a xs x σ :
  read (heap σ) t "subscriptions" = VRef a →
  items (cell_at (heap σ) a) = Some xs →
  unsubscribe number_equals (VRef t) x σ
  = (Normal tt,
     Machine (store_items (heap σ) a
                (Array_splice xs (Array_indexOf number_equals xs x) 1)) (calls σ)).
Proof. intros E I. unfold unsubscribe. simpl. by rewrite E, I. Qed.

(** X12. When the argument is an element of [this.subscriptions], its
    first occurrence is removed and nothing else: the elements before and
    after it stay, in order, no property of any object changes and no
    other array changes. *)
Theorem unsubscribe_removes_first_occurrence t a pre y post x σ :
  read (heap σ) t "subscriptions" = VRef a →
  items (cell_at (heap σ) a) = Some (pre ++ y :: post)%list →
  strict_equals number_equals x y = true →
  (∀ z, z ∈ pre → strict_equals number_equals x z = false) →
  let run := unsubscribe number_equals (VRef t) x σ in
  run.1 = Normal tt
  ∧ items (cell_at (heap run.2) a) = Some (pre ++ post)%list
  ∧ (∀ l, props (cell_at (heap run.2) l) = props (cell_at (heap σ) l))
  ∧ (∀ l, l ≠ a →
       items (cell_at (heap run.2) l) = items (cell_at (heap σ) l))
  ∧ calls run.2 = calls σ.
Proof.
  intros E I Hy Hpre run. subst run.
  rewrite (unsubscribe_run t a _ x σ E I). simpl.
  unfold Array_indexOf.
  rewrite indexOf_from_first, Z.add_0_l, Array_splice_at by done.
  split; [done|]. split; [|split; [|split; [|done]]].
  - by rewrite cell_at_store_items, decide_True.
  - intros l. rewrite cell_at_store_items. by case_decide; subst.
  - intros l Hl. by rewrite cell_at_store_items, decide_False.
Qed.

(** X13. When the argument is not an element of [this.subscriptions]
    (as when the subscription object itself is passed: the array holds
    the wrappers that [startDeltasSubscription] pushes, not the
    subscriptions), [indexOf] gives -1 and [splice(-1, 1)] removes the
    last element, whatever it is; on an empty array nothing is
    removed. *)
Theorem unsubscribe_unknown_removes_last t a xs x σ :
  read (heap σ) t "subscriptions" = VRef a →
  items (cell_at (heap σ) a) = Some xs →
  (∀ z, z ∈ xs → strict_equals number_equals x z = false) →
  let run := unsubscribe number_equals (VRef t) x σ in
  run.1 = Normal tt
  ∧ items (cell_at (heap run.2) a) = Some (take (length xs - 1) xs)
  ∧ (∀ l, props (cell_at (heap run.2) l) = props (cell_at (heap σ) l))
  ∧ (∀ l, l ≠ a →
       items (cell_at (heap run.2) l) = items (cell_at (heap σ) l))
  ∧ calls run.2 = calls σ.
Proof.
  intros E I Hxs run. subst run.
  rewrite (unsubscribe_run t a _ x σ E I). simpl.
  unfold Array_indexOf.
  rewrite indexOf_from_absent, Array_splice_last by done.
  split; [done|]. split; [|split; [|split; [|done]]].
  - by rewrite cell_at_store_items, decide_True.
  - intros l. rewrite cell_at_store_items. by case_decide; subst.
  - intros l Hl. by rewrite cell_at_store_items, decide_False.
Qed.

Lemma first_occurrence xs x :
  (∀ z, z ∈ xs → strict_equals number_equals x z = false)
  ∨ ∃ pre y post, xs = (pre ++ y :: post)%list
      ∧ strict_equals number_equals x y = true
      ∧ ∀ z, z ∈ pre → strict_equals number_equals x z = false.
Proof.
  induction xs as [|y xs IH].
  - left. intros z Hz. by apply elem_of_nil in Hz.
  - destruct (strict_equals number_equals x y) eqn:Ey.
    + right. exists [], y, xs. repeat split; [done|].
      intros z Hz. by apply elem_of_nil in Hz.
    + destruct IH as [IH|(pre & y' & post & -> & Ey' & Hpre)].
      * left. intros z [->|Hz]%elem_of_cons; [done|by apply IH].
      * right. exists (y :: pre), y', post. repeat split; [done|].
        intros z [->|Hz]%elem_of_cons; [done|by apply Hpre].
Qed.

(** X16. Whatever the argument, a call on an array of subscriptions
    removes exactly one element when the array is not empty and none when
    it is empty: it never removes more than one, and never fails to
    remove one from a non-empty array, subscribed argument or not. *)
Theorem unsubscribe_removes_exactly_one t a xs x σ :
  read (heap σ) t "subscriptions" = VRef a →
  items (cell_at (heap σ) a) = Some xs →
  ∃ ys, unsubscribe number_equals (VRef t) x σ
        = (Normal tt, Machine (store_items (heap σ) a ys) (calls σ))
      ∧ length ys = length xs - 1.
Proof.
  intros E I. rewrite (unsubscribe_run t a xs x σ E I).
  eexists. split; [reflexivity|]. unfold Array_indexOf.
  destruct (first_occurrence xs x) as [H|(pre & y & post & -> & Hy & H)].
  - rewrite indexOf_from_absent, Array_splice_last, length_take by done. lia.
  - rewrite indexOf_from_first, Z.add_0_l, Array_splice_at by done.
    rewrite !length_app. simpl. lia.
Qed.

(** X14. When [this.subscriptions] is not an array (absent, [null], a
    plain object, a primitive) or [this] is [null] or [undefined], the
    call raises a [TypeError] and writes nothing. *)
Theorem unsubscribe_without_an_array this x σ :
  isArray (heap σ) (field (heap σ) this "subscriptions") = false →
  unsubscribe number_equals this x σ = (Throw TypeError, σ).
Proof.
  intros H. unfold unsubscribe.
  destruct this as [| | | | |t]; try reflexivity. simpl in *.
  destruct (read (heap σ) t "subscriptions") as [| | | | |a]; try reflexivity.
  simpl in H.
  destruct (items (cell_at (heap σ) a)) as [xs|]; [|reflexivity].
  apply bool_decide_eq_false in H. destruct H. by eexists.
Qed.

End Unsubscribing.

Section Guard.
Context `{RT : Runtime}.
Implicit Types (h : gmap loc cell) (to : val).

(** X15. The [beforeResolve] guard starts the progress bar before it
    reads the route.  It fails, having called nothing else, exactly when
    the route is [null] or [undefined] or is named [Tree] or [Dot] and
    has no [params]; otherwise it returns, having called [next] exactly
    once and last, after at most one title commit.  A route without a
    name commits nothing and dispatches nothing. *)
Theorem beforeResolve_calls_next_once h to :
  let run := beforeResolve h to in
  let name := field h to "name" in
  let fails :=
    is_nullish to
    || (is_workflow_view name && is_nullish (field h to "params")) in
  head run.2 = Some NProgress_start
  ∧ (fails = true → run = (Throw TypeError, [NProgress_start]))
  ∧ (fails = false →
       run.1 = Normal tt ∧ last run.2 = Some next ∧ count_next run.2 = 1
       ∧ (count_commits run.2 ≤ 1)%nat)
  ∧ (is_nullish to = false → truthy name = false →
       run = (Normal tt, [NProgress_start; next])).
Proof.
  intros run name fails. subst run name fails. unfold beforeResolve.
  assert (∀ v, is_workflow_view v = true → truthy v = true) as Hview.
  { intros [| | | |s|]; simpl; try discriminate.
    destruct s; [discriminate|reflexivity]. }
  destruct (is_nullish to) eqn:Nt; simpl.
  { repeat split; intros; try done; discriminate. }
  destruct (is_workflow_view (field h to "name")) eqn:V; simpl.
  - rewrite (Hview _ V).
    destruct (is_nullish (field h to "params")) eqn:Np; simpl;
      repeat split; intros; try done; try discriminate;
        unfold count_commits; simpl; lia.
  - destruct (truthy (field h to "name")) eqn:T; simpl;
      repeat split; intros; try done; try discriminate;
        unfold count_commits; simpl; lia.
Qed.

End Guard.

Section MoreExamples.
Local Existing Instance sample_runtime.

Lemma populate_without_a_tree_sample :
  populateTreeFromGraphQLData (NotATree (VStr "tree")) (VRef 0)
    (Machine sample_heap [])
  = (Throw TypeError, Machine sample_heap []).
Proof.
  apply populate_without_a_tree; vm_compute; reflexivity.
Defined.

Lemma populate_inserts_root_first_sample :
  (∃ rest,
     calls (populateTreeFromGraphQLData CylcTree (VRef 0)
              (Machine null_cycle_point_heap [])).2
     = ([] ++ Call setWorkflow (workflow_node null_cycle_point_heap (VRef 0))
           :: rest)%list)
  ∧ (populateTreeFromGraphQLData CylcTree (VRef 0)
       (Machine null_cycle_point_heap [])).1 = Throw TypeError.
Proof.
  destruct (populate_inserts_root_first (VRef 0)
              (Machine null_cycle_point_heap []))
    as (H1 & _ & H3); [vm_compute; reflexivity|].
  split; [exact H1|]. apply H3. vm_compute. reflexivity.
Defined.

Lemma populate_empty_workflow_sample :
  populateTreeFromGraphQLData CylcTree (VRef 0)
    (Machine empty_workflow_heap [])
  = (Normal tt,
     Machine empty_workflow_heap
       ([] ++ [Call setWorkflow (workflow_node empty_workflow_heap (VRef 0))])).
Proof.
  apply (populate_empty_workflow (VRef 0) (Machine empty_workflow_heap []));
    vm_compute; reflexivity.
Defined.

Lemma populate_task_proxy_states_sample :
  read (heap (populateTreeFromGraphQLData CylcTree (VRef 0)
                (Machine sample_heap [])).2) 6 "state"
  = VStr "".
Proof.
  destruct (populateTreeFromGraphQLData CylcTree (VRef 0)
              (Machine sample_heap [])) as [r σ'] eqn:R.
  assert (r = Normal tt) as ->
    by (apply (f_equal fst) in R; vm_compute in R; congruence).
  cbn [snd].
  rewrite (populate_task_proxy_states CylcTree (VRef 0) 6
             (Machine sample_heap []) σ' R).
  - vm_compute. reflexivity.
  - vm_compute. apply list_elem_of_singleton. reflexivity.
Defined.

(** Unsubscribing with the first wrapper removes it. *)
Lemma unsubscribe_removes_first_occurrence_sample :
  items (cell_at (heap (unsubscribe sample_number_equals (VRef 0) (VRef 2)
                          (Machine two_subscriptions_heap [])).2) 1)
  = Some [VRef 3].
Proof.
  apply (unsubscribe_removes_first_occurrence sample_number_equals 0 1 [] (VRef 2) [VRef 3]
           (VRef 2) (Machine two_subscriptions_heap [])).
  - vm_compute. reflexivity.
  - vm_compute. reflexivity.
  - vm_compute. reflexivity.
  - intros z Hz. by apply elem_of_nil in Hz.
Defined.

(** Unsubscribing with the first subscription object, which the array
    does not hold, removes the wrapper of the second subscription. *)
Lemma unsubscribe_unknown_removes_last_sample :
  items (cell_at (heap (unsubscribe sample_number_equals (VRef 0) (VRef 4)
                          (Machine two_subscriptions_heap [])).2) 1)
  = Some [VRef 2].
Proof.
  apply (unsubscribe_unknown_removes_last sample_number_equals 0 1 [VRef 2; VRef 3]
           (VRef 4) (Machine two_subscriptions_heap [])).
  - vm_compute. reflexivity.
  - vm_compute. reflexivity.
  - intros z Hz. apply elem_of_cons in Hz as [->|Hz]; [reflexivity|].
    apply list_elem_of_singleton in Hz as ->. reflexivity.
Defined.

Lemma unsubscribe_removes_exactly_one_sample :
  ∃ ys, unsubscribe sample_number_equals (VRef 0) (VRef 4)
          (Machine two_subscriptions_heap [])
        = (Normal tt,
           Machine (store_items two_subscriptions_heap 1 ys) [])
      ∧ length ys = 1.
Proof.
  apply (unsubscribe_removes_exactly_one sample_number_equals 0 1
           [VRef 2; VRef 3] (VRef 4) (Machine two_subscriptions_heap []));
    vm_compute; reflexivity.
Defined.

Lemma unsubscribe_without_an_array_sample :
  unsubscribe sample_number_equals (VRef 2) (VRef 4) (Machine two_subscriptions_heap [])
  = (Throw TypeError, Machine two_subscriptions_heap []).
Proof.
  apply unsubscribe_without_an_array. vm_compute. reflexivity.
Defined.

End MoreExamples.
